(** * vimeo.js: a shallow embedding of [src/vimeo.js] and its properties

    The client class [Vimeo] of [src/vimeo.js] is embedded as Rocq functions
    over an explicit JavaScript store.  Objects the caller hands in ([params],
    [options], file-like objects, callbacks) live in a heap and are referred
    to by location, so the in-place updates of the source
    ([params.upload.approach = "tus"], [data.uri = videoUri], ...) are updates
    of a shared store.  Calls that leave the module (callbacks, Axios,
    [fs.createReadStream]) are recorded in a trace.  The module is an ES
    module, therefore strict-mode code: writing a property of a primitive
    value raises a [TypeError]. *)

From Stdlib Require Import ZArith String Ascii List.
From stdpp Require Import gmap strings list fin_maps pretty.

Local Open Scope string_scope.
Local Open Scope list_scope.
Local Open Scope Z_scope.

(** ** JavaScript values and the store *)

Definition loc := positive.

Inductive val :=
| VUndef
| VNull
| VBool (b : bool)
| VNum (n : Z)
| VStr (s : string)
| VRef (l : loc).

(** An object: its own properties and, for a function object, the identity
    of the (opaque) function in its call slot. *)
Record object := Obj {
  o_call : option nat;
  o_props : gmap string val }.

Abbreviation heap := (gmap loc object).

Definition empty_object : object := Obj None ∅.

Definition heap_obj (h : heap) (l : loc) : object :=
  default empty_object (h !! l).

Inductive jstype :=
| TUndefined | TObject | TBoolean | TNumber | TString | TFunction.

(** [typeof v] *)
Definition typeof (h : heap) (v : val) : jstype :=
  match v with
  | VUndef => TUndefined
  | VNull => TObject
  | VBool _ => TBoolean
  | VNum _ => TNumber
  | VStr _ => TString
  | VRef l => match o_call (heap_obj h l) with
              | Some _ => TFunction
              | None => TObject
              end
  end.

(** ToBoolean, as used by [if (x)], [!x] and [x || y]. *)
Definition truthy (v : val) : bool :=
  match v with
  | VUndef | VNull => false
  | VBool b => b
  | VNum n => negb (n =? 0)
  | VStr s => negb (String.eqb s "")
  | VRef _ => true
  end.

(** Thrown values: an error with a name and a message. *)
Record js_error := JsError {
  err_name : string;
  err_message : string }.

Definition TypeError (msg : string) : js_error := JsError "TypeError" msg.

(** [Error.prototype.toString], used by ["..." + error + "..."]. *)
Definition error_to_string (e : js_error) : string :=
  if String.eqb (err_message e) "" then err_name e
  else err_name e +:+ ": " +:+ err_message e.

(** Parsed JSON, the payload of an HTTP response. *)
#[warnings="-register-all"]
Inductive json :=
| JNull
| JBool (b : bool)
| JNum (n : Z)
| JStr (s : string)
| JArr (items : list json)
| JObj (fields : list (string * json)).

(** ** The resumable-upload handle of [tus-js-client] *)

Inductive tus_source :=
| SrcStream (path : string)      (* fs.createReadStream(path) *)
| SrcValue (file : val).         (* the caller's file-like object *)

(** [function () { return completeCallback(attempt.uri); }] with the two
    variables it closes over. *)
Record success_closure := SuccessClosure {
  sc_completeCallback : val;
  sc_attempt : val }.

Record tus_options := TusOptions {
  endpoint : string;
  uploadSize : val;
  retryDelays : list Z;
  onError : val;
  onProgress : val;
  onSuccess : success_closure }.

Record tus_upload := TusUpload {
  tus_file : tus_source;
  tus_options_of : tus_options;
  tus_url : val;
  tus_started : bool }.

(** [new tus.Upload(file, options)]: no URL yet, nothing sent. *)
Definition tus_Upload (file : tus_source) (options : tus_options) : tus_upload :=
  TusUpload file options VNull false.

(** [upload.start()], which only the holder of the handle calls. *)
Definition tus_start (u : tus_upload) : tus_upload :=
  TusUpload (tus_file u) (tus_options_of u) (tus_url u) true.

(** ** Effects: store, trace and exceptions *)

Inductive event :=
| EvCall (f : nat) (args : list val)
| EvAxiosPost (url : string) (data : val) (snapshot : heap)
              (headers : list (string * string))
| EvAxios (config : val) (snapshot : heap)
| EvCreateReadStream (path : string).

Record state := St {
  st_heap : heap;
  st_trace : list event }.

Inductive result (A : Type) :=
| Ok (a : A) (s : state)
| Throw (e : js_error) (s : state).
Arguments Ok {A} a s.
Arguments Throw {A} e s.

Definition M (A : Type) : Type := state → result A.

#[global] Instance M_ret : MRet M := λ A a s, Ok a s.

#[global] Instance M_bind : MBind M := λ A B f m s,
  match m s with
  | Ok a s' => f a s'
  | Throw e s' => Throw e s'
  end.

Definition throw {A} (e : js_error) : M A := λ s, Throw e s.

(** [try { body } catch (error) { handler }] *)
Definition try_catch {A} (body : M A) (handler : js_error → M A) : M A := λ s,
  match body s with
  | Ok a s' => Ok a s'
  | Throw e s' => handler e s'
  end.

Definition get_heap : M heap := λ s, Ok (st_heap s) s.

Definition emit (e : event) : M unit := λ s,
  Ok tt (St (st_heap s) (st_trace s ++ [e])).

Definition final_state {A} (r : result A) : state :=
  match r with Ok _ s | Throw _ s => s end.

Definition show_nullish (v : val) : string :=
  match v with VNull => "null" | _ => "undefined" end.

Definition show_primitive (v : val) : string :=
  match v with
  | VBool true => "boolean 'true'"
  | VBool false => "boolean 'false'"
  | VNum n => "number '" +:+ pretty n +:+ "'"
  | VStr s => "string '" +:+ s +:+ "'"
  | _ => ""
  end.

(** The value of [v.k] for a [v] that is not [null] or [undefined].  None of
    the property names this program reads is defined on a built-in
    prototype, so a read on a primitive, or of a missing own property, is
    [undefined]. *)
Definition prop (h : heap) (v : val) (k : string) : val :=
  match v with
  | VRef l => default VUndef (o_props (heap_obj h l) !! k)
  | _ => VUndef
  end.

(** [v.k] and [v[k]] *)
Definition get_prop (v : val) (k : string) : M val := λ s,
  match v with
  | VUndef | VNull =>
      Throw (TypeError ("Cannot read properties of " +:+ show_nullish v +:+
                        " (reading '" +:+ k +:+ "')")) s
  | _ => Ok (prop (st_heap s) v k) s
  end.

Definition store_prop (h : heap) (l : loc) (k : string) (x : val) : heap :=
  <[l := Obj (o_call (heap_obj h l)) (<[k := x]> (o_props (heap_obj h l)))]> h.

(** [v.k = x] in strict mode. *)
Definition set_prop (v : val) (k : string) (x : val) : M unit := λ s,
  match v with
  | VUndef | VNull =>
      Throw (TypeError ("Cannot set properties of " +:+ show_nullish v +:+
                        " (setting '" +:+ k +:+ "')")) s
  | VRef l => Ok tt (St (store_prop (st_heap s) l k x) (st_trace s))
  | _ =>
      Throw (TypeError ("Cannot create property '" +:+ k +:+ "' on " +:+
                        show_primitive v)) s
  end.

(** An object literal: a fresh object with the given properties. *)
Definition new_object (props : gmap string val) : M val := λ s,
  let l := fresh (dom (st_heap s)) in
  Ok (VRef l) (St (<[l := Obj None props]> (st_heap s)) (st_trace s)).

(** The function behind a value, when it is a function object. *)
Definition callable (h : heap) (v : val) : option nat :=
  match v with
  | VRef l => o_call (heap_obj h l)
  | _ => None
  end.

(** [f(args)] for a callback [f]: calling anything but a function raises;
    the callback itself is opaque and is recorded in the trace. *)
Definition call (name : string) (f : val) (args : list val) : M unit := λ s,
  match callable (st_heap s) f with
  | Some id => emit (EvCall id args) s
  | None => Throw (TypeError (name +:+ " is not a function")) s
  end.

(** The response body of Axios, materialised as fresh objects: the
    properties of an object are stored left to right (a repeated key keeps
    its last value), an array gets its elements by index and a [length]. *)
Section alloc.
Context (alloc : json → heap → val * heap).

Fixpoint alloc_fields (fields : list (string * json))
    (props : gmap string val) (h : heap) : gmap string val * heap :=
  match fields with
  | [] => (props, h)
  | (k, j) :: fields =>
      let '(v, h) := alloc j h in
      alloc_fields fields (<[k := v]> props) h
  end.

Fixpoint alloc_items (items : list json) (i : nat)
    (props : gmap string val) (h : heap) : gmap string val * heap :=
  match items with
  | [] => (<["length" := VNum (Z.of_nat i)]> props, h)
  | j :: items =>
      let '(v, h) := alloc j h in
      alloc_items items (S i) (<[pretty i := v]> props) h
  end.
End alloc.

Fixpoint alloc_json (j : json) (h : heap) : val * heap :=
  match j with
  | JNull => (VNull, h)
  | JBool b => (VBool b, h)
  | JNum n => (VNum n, h)
  | JStr s => (VStr s, h)
  | JArr items =>
      let '(props, h) := alloc_items alloc_json items 0%nat ∅ h in
      let l := fresh (dom h) in
      (VRef l, <[l := Obj None props]> h)
  | JObj fields =>
      let '(props, h) := alloc_fields alloc_json fields ∅ h in
      let l := fresh (dom h) in
      (VRef l, <[l := Obj None props]> h)
  end.

Definition materialise (j : json) : M val := λ s,
  let '(v, h) := alloc_json j (st_heap s) in
  Ok v (St h (st_trace s)).

(** ** The client object *)

Record request_options := RequestOptions {
  ro_method : string;
  ro_headers : list (string * string) }.

(** The fields of a [Vimeo] instance.  The three credentials are strings, a
    missing one is [undefined] ([None]). *)
Record Vimeo := MkVimeo {
  _clientId : option string;
  _clientSecret : option string;
  _accessToken : option string;
  _requestOptions : request_options }.

(** Truthiness of an optional string: defined and not empty. *)
Definition present (x : option string) : bool :=
  match x with
  | Some s => negb (String.eqb s "")
  | None => false
  end.

Definition constructor (clientId clientSecret accessToken : option string) : Vimeo :=
  {| _clientId := clientId;
     _clientSecret := clientSecret;
     _accessToken := if present accessToken then accessToken else None;
     _requestOptions :=
       {| ro_method := "GET";
          ro_headers := [("Accept", "application/vnd.vimeo.*+json;version=3.4");
                         ("User-Agent", "Vimeo.js/2.1.1")] |} |}.

Definition setAccessToken (this : Vimeo) (accessToken : option string) : Vimeo :=
  {| _clientId := _clientId this;
     _clientSecret := _clientSecret this;
     _accessToken := accessToken;
     _requestOptions := _requestOptions this |}.

(** ** What the module imports: [fs], [path] and Axios *)

Record platform := Platform {
  (* fs.statSync(path).size; None when statSync throws *)
  fs_statSync_size : string → option Z;
  (* path.basename(path) *)
  path_basename : string → string;
  (* Axios.post(url, data, {headers}): rejection, or response.data *)
  Axios_post : string → val → heap → list (string * string) → js_error + json;
  (* Axios(config): rejection, or response.data *)
  Axios : val → heap → js_error + json }.

(** What an async method settles with. *)
Inductive retval :=
| RNull
| RValue (v : val)
| RError (message : string)       (* new Error(message), as a value *)
| RUpload (u : tus_upload).

Inductive flow (A : Type) :=
| Return (r : retval)
| Continue (a : A).
Arguments Return {A} r.
Arguments Continue {A} a.

(** The success callback of a handle, as the transfer library fires it. *)
Definition tus_onSuccess (u : tus_upload) : M unit :=
  let f := onSuccess (tus_options_of u) in
  uri ← get_prop (sc_attempt f) "uri";
  call "completeCallback" (sc_completeCallback f) [uri].

Section Client.
Context (node : platform).

Definition await_Axios_post (url : string) (data : val)
    (headers : list (string * string)) : M val := λ s,
  let s' := St (st_heap s)
               (st_trace s ++ [EvAxiosPost url data (st_heap s) headers]) in
  match Axios_post node url data (st_heap s) headers with
  | inl error => Throw error s'
  | inr data => materialise data s'
  end.

Definition await_Axios (config : val) : M val := λ s,
  let s' := St (st_heap s) (st_trace s ++ [EvAxios config (st_heap s)]) in
  match Axios node config (st_heap s) with
  | inl error => Throw error s'
  | inr data => materialise data s'
  end.

(** vimeo.js 244-272 *)
Definition _performTusUpload
    (file fileSize attempt completeCallback progressCallback errorCallback : val)
    : M tus_upload :=
  fileUpload ← match file with
               | VStr path => emit (EvCreateReadStream path);;
                              mret (SrcStream path)
               | _ => mret (SrcValue file)
               end;
  let upload := tus_Upload fileUpload
    {| endpoint := "none";
       uploadSize := fileSize;
       retryDelays := [0; 1000; 3000; 5000];
       onError := errorCallback;
       onProgress := progressCallback;
       onSuccess := SuccessClosure completeCallback attempt |} in
  attempt_upload ← get_prop attempt "upload";
  upload_link ← get_prop attempt_upload "upload_link";
  mret (TusUpload (tus_file upload) (tus_options_of upload) upload_link
                  (tus_started upload)).

(** vimeo.js 300-305 and 374-379: the caller left [params] out. *)
Definition shift_arguments
    (params completeCallback progressCallback errorCallback : val)
    : M (val * val * val * val) :=
  h ← get_heap;
  match typeof h params with
  | TFunction =>
      let errorCallback := progressCallback in
      let progressCallback := completeCallback in
      let completeCallback := params in
      params ← new_object ∅;
      mret (params, completeCallback, progressCallback, errorCallback)
  | _ => mret (params, completeCallback, progressCallback, errorCallback)
  end.

(** vimeo.js 318-327 and 395-404 *)
Definition override_upload (params fileSize : val) : M unit :=
  params_upload ← get_prop params "upload";
  h ← get_heap;
  match typeof h params_upload with
  | TUndefined =>
      o ← new_object (<["size" := fileSize]> (<["approach" := VStr "tus"]> ∅));
      set_prop params "upload" o
  | _ =>
      params_upload ← get_prop params "upload";
      set_prop params_upload "approach" (VStr "tus");;
      params_upload ← get_prop params "upload";
      set_prop params_upload "size" fileSize
  end.

(** vimeo.js 343-346 and 425-428 *)
Definition initiate_failed (errorCallback : val) (error : js_error) : M retval :=
  call "errorCallback" errorCallback
       [VStr ("Unable to initiate an upload. [" +:+ error_to_string error +:+ "]")];;
  mret RNull.

(** vimeo.js 290-347 *)
Definition upload (this : Vimeo)
    (file params completeCallback progressCallback errorCallback : val)
    : M retval :=
  '(params, completeCallback, progressCallback, errorCallback) ←
    shift_arguments params completeCallback progressCallback errorCallback;
  sized ← match file with
          | VStr path =>
              match fs_statSync_size node path with
              | Some size => mret (Continue (VNum size))
              | None =>
                  call "errorCallback" errorCallback
                       [VStr "Unable to locate file to upload."];;
                  mret (Return RNull)
              end
          | _ => size ← get_prop file "size"; mret (Continue size)
          end;
  match sized with
  | Return r => mret r
  | Continue fileSize =>
      override_upload params fileSize;;
      let url := "/me/videos?field=uri,name,upload" in
      try_catch
        (data ← await_Axios_post url params (ro_headers (_requestOptions this));
         u ← _performTusUpload file fileSize data
               completeCallback progressCallback errorCallback;
         mret (RUpload u))
        (initiate_failed errorCallback)
  end.

(** vimeo.js 363-429 *)
Definition replace (this : Vimeo) (file : val) (videoUri : string)
    (params completeCallback progressCallback errorCallback : val)
    : M retval :=
  '(params, completeCallback, progressCallback, errorCallback) ←
    shift_arguments params completeCallback progressCallback errorCallback;
  sized ← match file with
          | VStr path =>
              match fs_statSync_size node path with
              | Some size =>
                  set_prop params "file_name" (VStr (path_basename node path));;
                  mret (Continue (VNum size))
              | None =>
                  call "errorCallback" errorCallback
                       [VStr "Unable to locate file to upload."];;
                  mret (Return RNull)
              end
          | _ =>
              size ← get_prop file "size";
              name ← get_prop file "name";
              set_prop params "file_name" name;;
              mret (Continue size)
          end;
  match sized with
  | Return r => mret r
  | Continue fileSize =>
      override_upload params fileSize;;
      let url := videoUri +:+ "/versions?fields=upload" in
      try_catch
        (data ← await_Axios_post url params (ro_headers (_requestOptions this));
         set_prop data "uri" (VStr videoUri);;
         u ← _performTusUpload file fileSize data
               completeCallback progressCallback errorCallback;
         mret (RUpload u))
        (initiate_failed errorCallback)
  end.

End Client.

(** ** constants.js *)

Definition VIMEO_HOSTNAME : string := "api.vimeo.com".

Module AUTH_ENDPOINTS.
Definition authorization : string := "/oauth/authorize".
Definition accessToken : string := "/oauth/access_token".
Definition clientCredentials : string := "/oauth/authorize/client".
End AUTH_ENDPOINTS.

(** ** [querystring.stringify] of Node, for an object of string values

    A query object is the list of its properties in insertion order; a value
    is a string or [undefined].  Strings are sequences of UTF-8 bytes. *)

Definition in_range (lo hi : N) (c : ascii) : bool :=
  ((lo <=? N_of_ascii c) && (N_of_ascii c <=? hi))%N.

(** The characters [querystring.escape] leaves alone:
    [A-Z a-z 0-9 - _ . ! ~ * ' ( )]. *)
Definition noEscape (c : ascii) : bool :=
  in_range 48 57 c || in_range 65 90 c || in_range 97 122 c ||
  bool_decide (c ∈ ["!"; "'"; "("; ")"; "*"; "-"; "."; "_"; "~"]%char).

Definition hex_digit (n : N) : ascii :=
  ascii_of_N (if (n <? 10)%N then 48 + n else 55 + n)%N.

Definition escape_char (c : ascii) : string :=
  if noEscape c then String c ""
  else String "%" (String (hex_digit (N_of_ascii c / 16))
                          (String (hex_digit (N_of_ascii c mod 16)) "")).

Fixpoint qs_escape (s : string) : string :=
  match s with
  | "" => ""
  | String c rest => escape_char c +:+ qs_escape rest
  end.

Definition encodeStringified (v : option string) : string :=
  match v with
  | Some s => qs_escape s
  | None => ""
  end.

Definition qs_stringify (obj : list (string * option string)) : string :=
  String.concat "&"
    (map (λ kv, qs_escape kv.1 +:+ "=" +:+ encodeStringified kv.2) obj).

(** ** Authorization URL (vimeo.js 91-115) *)

(** The [scope] argument: [string | string[]], or left out. *)
Inductive scope_arg :=
| ScopeUndefined
| ScopeString (s : string)
| ScopeArray (scopes : list string).

Definition buildAuthorizationEndpoint (this : Vimeo)
    (redirectUri : option string) (scope : scope_arg) (state : option string)
    : string :=
  let query := [("response_type", Some "code");
                ("client_id", _clientId this);
                ("redirect_uri", redirectUri)] in
  let query :=
    (match scope with
     | ScopeArray scopes =>               (* truthy, and Array.isArray *)
         query ++ [("scope", Some (String.concat " " scopes))]
     | ScopeString s =>
         if negb (String.eqb s "") then query ++ [("scope", Some s)]
         else query ++ [("scope", Some "public")]
     | ScopeUndefined => query ++ [("scope", Some "public")]
     end)%list in
  let query := (if present state then query ++ [("state", state)] else query)%list in
  "https://" +:+ VIMEO_HOSTNAME +:+ AUTH_ENDPOINTS.authorization +:+ "?" +:+
  qs_stringify query.

(** ** Reading a URL back

    What "the [scope] query parameter of the URL" means: the text after the
    first [?] is cut at every [&], each field is cut at its first [=], and
    both halves are percent-decoded ([+] stands for a space), as
    [querystring.parse] does. *)

Fixpoint after_char (sep : ascii) (s : string) : string :=
  match s with
  | "" => ""
  | String c rest => if Ascii.eqb c sep then rest else after_char sep rest
  end.

Fixpoint before_char (sep : ascii) (s : string) : string :=
  match s with
  | "" => ""
  | String c rest => if Ascii.eqb c sep then "" else String c (before_char sep rest)
  end.

Fixpoint split_string (sep : ascii) (s : string) : list string :=
  match s with
  | "" => [""]
  | String c rest =>
      if Ascii.eqb c sep then "" :: split_string sep rest
      else match split_string sep rest with
           | [] => [String c ""]
           | field :: fields => String c field :: fields
           end
  end.

Definition hex_value (c : ascii) : option N :=
  if in_range 48 57 c then Some (N_of_ascii c - 48)%N
  else if in_range 65 70 c then Some (N_of_ascii c - 55)%N
  else if in_range 97 102 c then Some (N_of_ascii c - 87)%N
  else None.

Fixpoint qs_unescape (s : string) : string :=
  match s with
  | "" => ""
  | String c rest =>
      if Ascii.eqb c "+" then String " " (qs_unescape rest)
      else if Ascii.eqb c "%" then
        match rest with
        | String a (String b rest') =>
            match hex_value a, hex_value b with
            | Some x, Some y => String (ascii_of_N (16 * x + y)) (qs_unescape rest')
            | _, _ => String c (qs_unescape rest)
            end
        | _ => String c (qs_unescape rest)
        end
      else String c (qs_unescape rest)
  end.

Definition parse_field (field : string) : string * string :=
  (qs_unescape (before_char "=" field), qs_unescape (after_char "=" field)).

Definition nonempty (s : string) : bool := negb (String.eqb s "").

Definition query_params (url : string) : list (string * string) :=
  map parse_field (filter (λ f, nonempty f = true) (split_string "&" (after_char "?" url))).

Definition query_param (url key : string) : option string :=
  snd <$> find (λ kv, String.eqb kv.1 key) (query_params url).

(** ** Requests (vimeo.js 52-72, 123-230) *)

Definition opt_val (x : option string) : val :=
  match x with
  | Some s => VStr s
  | None => VUndef
  end.

(** [{...headers, [key]: value}] on a header list. *)
Fixpoint with_header (headers : list (string * string)) (key value : string)
    : list (string * string) :=
  match headers with
  | [] => [(key, value)]
  | (k, v) :: rest =>
      if String.eqb k key then (k, value) :: rest
      else (k, v) :: with_header rest key value
  end.

(** Own properties of a string primitive: its characters by index. *)
Fixpoint string_props (s : string) (i : nat) : gmap string val :=
  match s with
  | "" => ∅
  | String c rest => <[pretty i := VStr (String c "")]> (string_props rest (S i))
  end.

(** What [{...v}] copies. *)
Definition spread (h : heap) (v : val) : gmap string val :=
  match v with
  | VRef l => o_props (heap_obj h l)
  | VStr s => string_props s 0
  | _ => ∅
  end.

(** [["POST", "PATCH", "PUT", "DELETE"].indexOf(method) !== -1] *)
Definition has_body (method : val) : bool :=
  match method with
  | VStr m => bool_decide (m ∈ ["POST"; "PATCH"; "PUT"; "DELETE"])
  | _ => false
  end.

(** vimeo.js 162-168 *)
Fixpoint apply_default_headers (requestOptions : val)
    (defaults : list (string * string)) : M unit :=
  match defaults with
  | [] => mret tt
  | (key, value) :: defaults =>
      headers ← get_prop requestOptions "headers";
      current ← get_prop headers key;
      (if negb (truthy current) then
         headers ← get_prop requestOptions "headers";
         set_prop headers key (VStr value)
       else mret tt);;
      apply_default_headers requestOptions defaults
  end.

(** vimeo.js 153-187 *)
Definition _buildRequestOptions (this : Vimeo) (options : val) : M val :=
  h ← get_heap;
  requestOptions ← new_object (spread h options);
  method ← get_prop options "method";
  set_prop requestOptions "method" (if truthy method then method else VStr "GET");;
  headers ← get_prop options "headers";
  headers ← (if truthy headers then mret headers else new_object ∅);
  set_prop requestOptions "headers" headers;;
  data ← get_prop options "data";
  set_prop requestOptions "data" data;;
  (* this._requestOptions.headers is an object, hence truthy *)
  apply_default_headers requestOptions (ro_headers (_requestOptions this));;
  (if present (_accessToken this) then
     headers ← get_prop requestOptions "headers";
     set_prop headers "Authorization"
              (VStr ("Bearer " +:+ default "" (_accessToken this)))
   else if present (_clientId this) && present (_clientSecret this) then
     let basicToken :=
       default "" (_clientId this) +:+ ":" +:+ default "" (_clientSecret this) in
     headers ← get_prop requestOptions "headers";
     set_prop headers "Authorization" (VStr ("Basic " +:+ basicToken))
   else mret tt);;
  method ← get_prop requestOptions "method";
  (if has_body method then
     headers ← get_prop requestOptions "headers";
     content_type ← get_prop headers "Content-Type";
     if negb (truthy content_type) then
       headers ← get_prop requestOptions "headers";
       set_prop headers "Content-Type" (VStr "application/json")
     else mret tt
   else mret tt);;
  mret requestOptions.

Section Requests.
Context (node : platform).

(** vimeo.js 210-230 *)
Definition request (this : Vimeo) (options : val) : M retval :=
  h ← get_heap;
  match typeof h options with
  | TString => set_prop options "method" (VStr "GET")
  | _ => mret tt
  end;;
  url ← get_prop options "url";
  h ← get_heap;
  match typeof h url with
  | TString =>
      requestOptions ← _buildRequestOptions this options;
      try_catch
        (data ← await_Axios node requestOptions; mret (RValue data))
        (λ error, throw error)
  | _ => mret (RError "You must provide an API url")
  end.

(** vimeo.js 52-72 *)
Definition accessToken (this : Vimeo) (code redirectUri : option string)
    : M retval :=
  let url := "https://" +:+ VIMEO_HOSTNAME +:+ "/" +:+ AUTH_ENDPOINTS.accessToken in
  body ← new_object (<["redirect_uri" := opt_val redirectUri]>
                     (<["code" := opt_val code]>
                      (<["grant_type" := VStr "authorization_code"]> ∅)));
  let headers := with_header (ro_headers (_requestOptions this))
                   "Content-Type" "application/x-www-form-urlencoded" in
  try_catch
    (data ← await_Axios_post node url body headers; mret (RValue data))
    (λ error, throw error).

(** vimeo.js 123-151 *)
Definition generateClientCredentials (this : Vimeo) (scope : scope_arg)
    : M retval :=
  let scope_value :=
    match scope with
    | ScopeArray scopes => String.concat " " scopes
    | ScopeString s => if negb (String.eqb s "") then s else "public"
    | ScopeUndefined => "public"
    end in
  query ← new_object (<["scope" := VStr scope_value]>
                      (<["grant_type" := VStr "client_credentials"]> ∅));
  try_catch
    (let url := "https://" +:+ VIMEO_HOSTNAME +:+ "/" +:+
                AUTH_ENDPOINTS.clientCredentials in
     let headers := with_header (ro_headers (_requestOptions this))
                      "Content-Type" "application/x-www-form-urlencoded" in
     data ← await_Axios_post node url query headers;
     mret (RValue data))
    (λ error, throw error).

End Requests.

(** ** A concrete platform: POSIX [path.basename], a one-file disk *)

Fixpoint drop_slashes (s : list ascii) : list ascii :=
  match s with
  | "/"%char :: rest => drop_slashes rest
  | _ => s
  end.

Fixpoint until_slash (s : list ascii) : list ascii :=
  match s with
  | [] => []
  | c :: rest => if Ascii.eqb c "/" then [] else c :: until_slash rest
  end.

(** [path.posix.basename]: the last portion of the path, trailing
    separators ignored. *)
Definition posix_basename (path : string) : string :=
  string_of_list_ascii
    (rev (until_slash (drop_slashes (rev (list_ascii_of_string path))))).

Definition sample_link : string :=
  "https://files.tus.vimeo.com/files/vimeo-prod-src-tus-eu/1".

Definition sample_attempt : json := JObj [("upload_link", JStr sample_link)].

Definition sample_response : json :=
  JObj [("uri", JStr "/videos/76979871"); ("upload", sample_attempt)].

Definition sample_platform : platform :=
  {| fs_statSync_size := λ path,
       if String.eqb path "/home/me/clip.mp4" then Some 1048576 else None;
     path_basename := posix_basename;
     Axios_post := λ url data h headers, inr sample_response;
     Axios := λ config h, inr (JObj [("name", JStr "me")]) |}.

Definition sample_descriptor : object :=
  Obj None (<["redirect_url" := VStr "https://example.com"]>
            (<["approach" := VStr "post"]> ∅)).

Definition sample_params : object :=
  Obj None (<["name" := VStr "My clip"]> (<["upload" := VRef 6%positive]> ∅)).

Definition sample_options : object :=
  Obj None (<["method" := VStr "GET"]> (<["url" := VStr "/me"]> ∅)).

(** A store with three callbacks (1, 2, 3), an empty [params] object (4),
    a [params] object with an [upload] descriptor (5, 6), a file-like
    object (7), an [options] object without [url] (8) and one with it
    (9). *)
Definition sample_heap : heap :=
  list_to_map
    [(1%positive, Obj (Some 1%nat) ∅);
     (2%positive, Obj (Some 2%nat) ∅);
     (3%positive, Obj (Some 3%nat) ∅);
     (4%positive, Obj None ∅);
     (5%positive, sample_params);
     (6%positive, sample_descriptor);
     (7%positive, Obj None (<["size" := VNum 2048]>
                            (<["name" := VStr "blob.mov"]> ∅)));
     (8%positive, Obj None (<["method" := VStr "GET"]> ∅));
     (9%positive, sample_options)].

Definition sample_state : state := St sample_heap [].

Definition sample_client : Vimeo :=
  constructor (Some "client-id") (Some "client-secret") None.

(** [c] occurs in [s]. *)
Fixpoint has_char (c : ascii) (s : string) : bool :=
  match s with
  | "" => false
  | String c' rest => Ascii.eqb c' c || has_char c rest
  end.

(** The characters with a meaning in a query string. *)
Definition delimiter (c : ascii) : bool :=
  bool_decide (c ∈ ["&"; "="; "?"; "+"]%char).

(** The value [buildAuthorizationEndpoint] sends for a [scope] argument. *)
Definition normalized_scope (scope : scope_arg) : string :=
  match scope with
  | ScopeArray scopes => String.concat " " scopes
  | ScopeString s => if String.eqb s "" then "public" else s
  | ScopeUndefined => "public"
  end.

(** ** Vocabulary of the statements *)

(** The field [k] of a JSON object, as [JSON.parse] keeps it: the last one
    when the key is repeated. *)
Fixpoint last_field (k : string) (fields : list (string * json))
    (found : option json) : option json :=
  match fields with
  | [] => found
  | (k', j) :: fields =>
      last_field k fields (if String.eqb k' k then Some j else found)
  end.

Definition json_field (j : json) (k : string) : option json :=
  match j with
  | JObj fields => last_field k fields None
  | _ => None
  end.

(** The size [upload] and [replace] resolve for [file]: the size on disk
    for a path, the [size] property otherwise; [None] when there is none
    (the path cannot be stat'ed, or [file] is [null] or [undefined]). *)
Definition resolved_size (node : platform) (h : heap) (file : val) : option val :=
  match file with
  | VStr path => VNum <$> fs_statSync_size node path
  | VUndef | VNull => None
  | _ => Some (prop h file "size")
  end.

Definition is_http (e : event) : bool :=
  match e with
  | EvAxiosPost _ _ _ _ | EvAxios _ _ => true
  | _ => false
  end.

(** The headers of the POSTs in a trace. *)
Definition post_headers (trace : list event) : list (list (string * string)) :=
  omap (λ e, match e with
             | EvAxiosPost _ _ _ headers => Some headers
             | _ => None
             end) trace.

Definition header (headers : list (string * string)) (key : string) : option string :=
  snd <$> find (λ kv, String.eqb kv.1 key) headers.

(** What the caller supplied in [params.upload]: nothing, or an object of
    its own (not [params] itself) with some fields. *)
Inductive descriptor (h : heap) (p : loc) : gmap string val → Prop :=
| descriptor_absent :
    prop h (VRef p) "upload" = VUndef → descriptor h p ∅
| descriptor_given u o :
    prop h (VRef p) "upload" = VRef u → h !! u = Some o → u ≠ p →
    descriptor h p (o_props o).

(** The [file_name] that [replace] resolves for [file]. *)
Definition resolved_name (node : platform) (h : heap) (file : val) : val :=
  match file with
  | VStr path => VStr (path_basename node path)
  | _ => prop h file "name"
  end.

(** [m] leaves the store as it is, whatever its outcome. *)
Definition keeps_store {A} (m : M A) : Prop :=
  ∀ s, st_heap (final_state (m s)) = st_heap s.

(** [m] only adds events, and those it adds satisfy [P]. *)
Definition emits {A} (P : event → Prop) (m : M A) : Prop :=
  ∀ s, ∃ new, st_trace (final_state (m s)) = st_trace s ++ new ∧ Forall P new.

Definition not_a_post (e : event) : Prop :=
  match e with
  | EvAxiosPost _ _ _ _ => False
  | _ => True
  end.

(** Every POST of the trace was answered with the response body [j]. *)
Definition answered (node : platform) (trace : list event) (j : json) : Prop :=
  ∀ url data snapshot headers,
    In (EvAxiosPost url data snapshot headers) trace →
    Axios_post node url data snapshot headers = inr j.

(** What [_performTusUpload] hands to [tus.Upload] for [file]. *)
Definition tus_source_of (file : val) : tus_source :=
  match file with
  | VStr path => SrcStream path
  | _ => SrcValue file
  end.

Definition stream_events (file : val) : list event :=
  match file with
  | VStr path => [EvCreateReadStream path]
  | _ => []
  end.

(** The headers every client starts with (vimeo.js 27-33). *)
Definition default_headers : list (string * string) :=
  [("Accept", "application/vnd.vimeo.*+json;version=3.4");
   ("User-Agent", "Vimeo.js/2.1.1")].

Definition sends_default_headers (e : event) : Prop :=
  match e with
  | EvAxiosPost _ _ _ headers => headers = default_headers
  | _ => True
  end.

(** Whatever [m] returns satisfies [Q]. *)
Definition returns {A} (Q : A → Prop) (m : M A) : Prop :=
  ∀ s a s', m s = Ok a s' → Q a.

Definition not_an_error (r : retval) : Prop :=
  match r with
  | RError _ => False
  | _ => True
  end.


(** The headers [accessToken] and [generateClientCredentials] send. *)
Definition form_headers : list (string * string) :=
  default_headers ++ [("Content-Type", "application/x-www-form-urlencoded")].

(** [options.headers] is missing (or otherwise falsy), or is an object other
    than [options] itself. *)
Definition headers_usable (h : heap) (o : loc) : Prop :=
  truthy (prop h (VRef o) "headers") = false
  ∨ (∃ hd, prop h (VRef o) "headers" = VRef hd ∧ is_Some (h !! hd) ∧ hd ≠ o).

(** What the caller supplied for header [key]. *)
Definition supplied_header (h : heap) (o : loc) (key : string) : val :=
  prop h (prop h (VRef o) "headers") key.

(** [options.method || "GET"] *)
Definition method_or_GET (h : heap) (o : loc) : val :=
  if truthy (prop h (VRef o) "method") then prop h (VRef o) "method"
  else VStr "GET".

(** 1 for a call to Axios, 0 for any other event. *)
Definition http_count (e : event) : nat := if is_http e then 1 else 0.

(** [m] only adds events, and those it adds weigh at most [n]. *)
Definition bounded {A} (weight : event → nat) (n : nat) (m : M A) : Prop :=
  ∀ s, ∃ new,
    st_trace (final_state (m s)) = st_trace s ++ new
    ∧ (sum_list_with weight new ≤ n)%nat.

(** Two more platforms: one whose network is down, one whose service
    answers without an upload link. *)
Definition offline_error : js_error := JsError "Error" "Network Error".

Definition offline_platform : platform :=
  {| fs_statSync_size := fs_statSync_size sample_platform;
     path_basename := posix_basename;
     Axios_post := λ url data h headers, inl offline_error;
     Axios := λ config h, inl offline_error |}.

Definition linkless_platform : platform :=
  {| fs_statSync_size := fs_statSync_size sample_platform;
     path_basename := posix_basename;
     Axios_post := λ url data h headers,
       inr (JObj [("uri", JStr "/videos/76979871")]);
     Axios := λ config h, inr JNull |}.

(** A store with a POST [options] object (1) whose [headers] (2) set
    [Accept]. *)
Definition post_options : object :=
  Obj None (<["headers" := VRef 2%positive]>
            (<["data" := VStr "{}"]>
             (<["method" := VStr "POST"]>
              (<["url" := VStr "/me/albums"]> ∅)))).

Definition post_heap : heap :=
  list_to_map
    [(1%positive, post_options);
     (2%positive, Obj None (<["Accept" := VStr "application/json"]> ∅))].

Definition post_state : state := St post_heap [].

(** * Properties *)

(** ** Induction on JSON values, through the lists *)

Lemma json_ind' (P : json → Prop) :
  P JNull → (∀ b, P (JBool b)) → (∀ n, P (JNum n)) → (∀ s, P (JStr s)) →
  (∀ items, Forall P items → P (JArr items)) →
  (∀ fields, Forall (λ kv, P kv.2) fields → P (JObj fields)) →
  ∀ j, P j.
Proof.
  intros Hnull Hbool Hnum Hstr Harr Hobj.
  fix IH 1. intros [| b | n | s | items | fields].
  - exact Hnull.
  - apply Hbool.
  - apply Hnum.
  - apply Hstr.
  - apply Harr. revert items. fix IHitems 1. intros [|j items].
    + constructor.
    + constructor; [apply IH | apply IHitems].
  - apply Hobj. revert fields. fix IHfields 1. intros [|[k j] fields].
    + constructor.
    + constructor; [apply IH | apply IHfields].
Qed.

(** ** Strings *)

Lemma has_char_app c a b :
  has_char c (a +:+ b) = has_char c a || has_char c b.
Proof.
  induction a as [|x a IH]; simpl; [done|].
  rewrite IH. by rewrite orb_assoc.
Qed.

Lemma after_char_app sep a b :
  has_char sep a = false → after_char sep (a +:+ String sep b) = b.
Proof.
  induction a as [|x a IH]; simpl; intros H.
  - by rewrite Ascii.eqb_refl.
  - apply orb_false_elim in H as [-> H]. auto.
Qed.

Lemma before_char_app sep a b :
  has_char sep a = false → before_char sep (a +:+ String sep b) = a.
Proof.
  induction a as [|x a IH]; simpl; intros H.
  - by rewrite Ascii.eqb_refl.
  - apply orb_false_elim in H as [-> H]. by rewrite IH.
Qed.

Lemma split_string_clean sep a :
  has_char sep a = false → split_string sep a = [a].
Proof.
  induction a as [|x a IH]; simpl; intros H; [done|].
  apply orb_false_elim in H as [-> H]. by rewrite IH.
Qed.

Lemma split_string_app sep a b :
  has_char sep a = false →
  split_string sep (a +:+ String sep b) = a :: split_string sep b.
Proof.
  induction a as [|x a IH]; simpl; intros H.
  - by rewrite Ascii.eqb_refl.
  - apply orb_false_elim in H as [-> H]. by rewrite IH.
Qed.

(** ** Percent-encoding *)

Ltac each_ascii c :=
  destruct c as [[] [] [] [] [] [] [] []].

Lemma escape_char_clean sep c :
  delimiter sep = true → has_char sep (escape_char c) = false.
Proof.
  unfold delimiter. rewrite bool_decide_eq_true.
  rewrite !elem_of_cons, elem_of_nil.
  intros [->|[->|[->|[->|[]]]]];
    each_ascii c; vm_compute; reflexivity.
Qed.

Lemma qs_escape_clean sep s :
  delimiter sep = true → has_char sep (qs_escape s) = false.
Proof.
  intros Hd. induction s as [|c s IH]; simpl; [done|].
  by rewrite has_char_app, escape_char_clean, IH.
Qed.

Lemma qs_unescape_escape_char c rest :
  qs_unescape (escape_char c +:+ rest) = String c (qs_unescape rest).
Proof. each_ascii c; reflexivity. Qed.

Lemma qs_unescape_escape s : qs_unescape (qs_escape s) = s.
Proof.
  induction s as [|c s IH]; simpl; [done|].
  by rewrite qs_unescape_escape_char, IH.
Qed.

Lemma parse_field_encoded k v :
  parse_field (qs_escape k +:+ "=" +:+ encodeStringified v) = (k, default "" v).
Proof.
  unfold parse_field. change ("=" +:+ ?x) with (String "=" x).
  rewrite before_char_app, after_char_app by (by apply qs_escape_clean).
  rewrite qs_unescape_escape. f_equal.
  destruct v as [s|]; simpl; [apply qs_unescape_escape|done].
Qed.

Lemma encoded_field_nonempty k v :
  nonempty (qs_escape k +:+ "=" +:+ encodeStringified v) = true.
Proof. by destruct (qs_escape k). Qed.

Lemma encoded_field_clean k v :
  has_char "&" (qs_escape k +:+ "=" +:+ encodeStringified v) = false.
Proof.
  rewrite !has_char_app, qs_escape_clean by done.
  destruct v as [s|]; simpl; [by rewrite qs_escape_clean|done].
Qed.

(** ** [querystring.stringify] can be read back *)

Lemma split_stringify obj :
  obj ≠ [] →
  split_string "&" (qs_stringify obj)
  = map (λ kv, qs_escape kv.1 +:+ "=" +:+ encodeStringified kv.2) obj.
Proof.
  unfold qs_stringify. induction obj as [|kv [|kv' obj] IH]; intros Hne.
  - done.
  - simpl. by rewrite split_string_clean by apply encoded_field_clean.
  - change (String.concat "&" (map ?f (kv :: kv' :: obj)))
      with (f kv +:+ String "&" (String.concat "&" (map f (kv' :: obj)))).
    cbv beta. rewrite split_string_app by apply encoded_field_clean.
    by rewrite IH.
Qed.

Lemma query_fields_stringify obj :
  map parse_field
      (filter (λ f, nonempty f = true) (split_string "&" (qs_stringify obj)))
  = map (λ kv, (kv.1, default "" kv.2)) obj.
Proof.
  destruct (decide (obj = [])) as [->|Hne]; [done|].
  rewrite split_stringify by done. clear Hne.
  induction obj as [|[k v] obj IH]; [done|].
  rewrite map_cons, filter_cons_True by apply encoded_field_nonempty.
  simpl. by rewrite parse_field_encoded, IH.
Qed.

(** ** The authorization URL *)

(** The query object [buildAuthorizationEndpoint] hands to
    [querystring.stringify]. *)
Lemma buildAuthorizationEndpoint_query this redirectUri scope state :
  query_params (buildAuthorizationEndpoint this redirectUri scope state)
  = [("response_type", "code");
     ("client_id", default "" (_clientId this));
     ("redirect_uri", default "" redirectUri);
     ("scope", normalized_scope scope)]
    ++ (if present state then [("state", default "" state)] else []).
Proof.
  unfold query_params, buildAuthorizationEndpoint.
  change (after_char "?" ("https://" +:+ VIMEO_HOSTNAME +:+
            AUTH_ENDPOINTS.authorization +:+ "?" +:+ ?q)) with q.
  rewrite query_fields_stringify.
  destruct scope as [|s|scopes]; simpl; try destruct (String.eqb s "");
    destruct (present state); reflexivity.
Qed.

(** C9 (as amended): the [scope] parameter of the URL is the space-joined
    array, the string itself when it is a non-empty string, and ["public"]
    when [scope] is left out or is the empty string; the URL has a [state]
    parameter exactly when [state] is defined and not empty, and then it is
    that string. *)
Theorem buildAuthorizationEndpoint_scope_state this redirectUri scope state :
  let url := buildAuthorizationEndpoint this redirectUri scope state in
  query_param url "scope"
  = Some (match scope with
          | ScopeArray scopes => String.concat " " scopes
          | ScopeString s => if String.eqb s "" then "public" else s
          | ScopeUndefined => "public"
          end)
  ∧ (is_Some (query_param url "state") ↔ present state = true)
  ∧ (present state = true → query_param url "state" = state).
Proof.
  cbv zeta. unfold query_param.
  rewrite buildAuthorizationEndpoint_query. simpl.
  split; [done|].
  destruct state as [s|]; simpl; [destruct (String.eqb s ""); simpl|].
  - split; [split; [by intros [? ?]|done]|done].
  - split; [split; [done|by eexists]|done].
  - split; [split; [by intros [? ?]|done]|done].
Qed.

(** C9, as stated, fails for the empty string: it is a string, and the
    [scope] parameter is not that string but ["public"]. *)
Lemma buildAuthorizationEndpoint_empty_scope :
  query_param (buildAuthorizationEndpoint sample_client
                 (Some "https://example.com/callback") (ScopeString "") None)
              "scope" = Some "public"
  ∧ query_param (buildAuthorizationEndpoint sample_client
                   (Some "https://example.com/callback") (ScopeString "") None)
                "scope" ≠ Some "".
Proof. split; [reflexivity|discriminate]. Qed.

(** ** The store *)

Lemma heap_obj_insert (h : heap) l o l' :
  heap_obj (<[l := o]> h) l' = if decide (l = l') then o else heap_obj h l'.
Proof.
  unfold heap_obj. rewrite lookup_insert. by destruct (decide (l = l')).
Qed.

Lemma heap_obj_subseteq (h h' : heap) l :
  h ⊆ h' → is_Some (h !! l) → heap_obj h' l = heap_obj h l.
Proof.
  intros Hsub [o Ho]. unfold heap_obj.
  by rewrite (lookup_weaken _ _ _ _ Ho Hsub), Ho.
Qed.

(** What an allocation of plain objects leaves alone. *)
Record extends (h h' : heap) : Prop := {
  extends_old : h ⊆ h';
  extends_new : ∀ l o, h' !! l = Some o → h !! l = None → o_call o = None }.

Lemma extends_refl h : extends h h.
Proof. split; [done|]. intros l o H1 H2. congruence. Qed.

Lemma extends_trans h1 h2 h3 : extends h1 h2 → extends h2 h3 → extends h1 h3.
Proof.
  intros [S1 N1] [S2 N2]. split; [by etrans|].
  intros l o H3 H1. destruct (h2 !! l) as [o2|] eqn:H2.
  - rewrite (lookup_weaken _ _ _ _ H2 S2) in H3. simplify_eq. eauto.
  - eauto.
Qed.

Lemma extends_fresh (h : heap) props :
  extends h (<[fresh (dom h) := Obj None props]> h).
Proof.
  assert (h !! fresh (dom h) = None) as Hfresh
    by apply not_elem_of_dom, is_fresh.
  split.
  - by apply insert_subseteq.
  - intros l o. rewrite lookup_insert. destruct (decide (fresh (dom h) = l)).
    + by intros [= <-].
    + congruence.
Qed.

Lemma callable_extends h h' v : extends h h' → callable h' v = callable h v.
Proof.
  intros [Hsub Hnew]. destruct v as [| | | | |l]; try done. simpl.
  unfold heap_obj. destruct (h !! l) as [o|] eqn:Hl.
  - by rewrite (lookup_weaken _ _ _ _ Hl Hsub).
  - destruct (h' !! l) as [o'|] eqn:Hl'; [|done]. simpl. eauto.
Qed.

Lemma typeof_callable h v :
  typeof h v = TFunction ↔ is_Some (callable h v).
Proof.
  unfold is_Some. destruct v; simpl; try (split; [discriminate|intros [? [=]]]).
  destruct (o_call _); split; eauto; try discriminate. intros [? [=]].
Qed.

Lemma typeof_extends h h' v : extends h h' → typeof h' v = typeof h v.
Proof.
  intros He. destruct v as [| | | | |l]; try done.
  pose proof (callable_extends _ _ (VRef l) He) as Hc. simpl in *. by rewrite Hc.
Qed.

Lemma prop_extends h h' l k :
  extends h h' → is_Some (h !! l) → prop h' (VRef l) k = prop h (VRef l) k.
Proof. intros [Hsub _] Hl. simpl. by rewrite (heap_obj_subseteq h h'). Qed.

(** ** Materialising a response *)

Definition alloc_ok (j : json) : Prop :=
  ∀ h v h', alloc_json j h = (v, h') →
    extends h h' ∧ ∀ l, v = VRef l → h !! l = None ∧ is_Some (h' !! l).

Lemma alloc_fields_extends fields :
  Forall (λ kv, alloc_ok kv.2) fields →
  ∀ props h props' h',
    alloc_fields alloc_json fields props h = (props', h') → extends h h'.
Proof.
  induction 1 as [|[k j] fields Hj _ IH]; simpl; intros props h props' h' Heq.
  - simplify_eq. apply extends_refl.
  - destruct (alloc_json j h) as [v h1] eqn:Hv.
    apply Hj in Hv as [He _]. eauto using extends_trans.
Qed.

Lemma alloc_items_extends items :
  Forall alloc_ok items →
  ∀ i props h props' h',
    alloc_items alloc_json items i props h = (props', h') → extends h h'.
Proof.
  induction 1 as [|j items Hj _ IH]; simpl; intros i props h props' h' Heq.
  - simplify_eq. apply extends_refl.
  - destruct (alloc_json j h) as [v h1] eqn:Hv.
    apply Hj in Hv as [He _]. eauto using extends_trans.
Qed.

Lemma alloc_fresh_object (h h1 : heap) props :
  extends h h1 →
  let l := fresh (dom h1) in
  extends h (<[l := Obj None props]> h1)
  ∧ ∀ l', VRef l = VRef l' →
      h !! l' = None ∧ is_Some (<[l := Obj None props]> h1 !! l').
Proof.
  intros He l. split.
  - eapply extends_trans; [done|apply extends_fresh].
  - intros l' [= <-]. split.
    + eapply lookup_weaken_None; [|apply He].
      apply not_elem_of_dom, is_fresh.
    + rewrite lookup_insert_eq. by eexists.
Qed.

Lemma alloc_json_ok j : alloc_ok j.
Proof.
  induction j as [| b | n | s | items IH | fields IH] using json_ind';
    intros h v h' Heq; simpl in Heq.
  1-4: simplify_eq; split; [apply extends_refl|done].
  - destruct (alloc_items _ _ _ _ _) as [props h1] eqn:Hitems.
    simplify_eq. apply alloc_fresh_object. eauto using alloc_items_extends.
  - destruct (alloc_fields _ _ _ _) as [props h1] eqn:Hfields.
    simplify_eq. apply alloc_fresh_object. eauto using alloc_fields_extends.
Qed.

(** ** Running the monad *)

Lemma bind_Ok {A B} (m : M A) (f : A → M B) s a s' :
  m s = Ok a s' → (m ≫= f) s = f a s'.
Proof. unfold mbind, M_bind. by intros ->. Qed.

Lemma bind_Throw {A B} (m : M A) (f : A → M B) s e s' :
  m s = Throw e s' → (m ≫= f) s = Throw e s'.
Proof. unfold mbind, M_bind. by intros ->. Qed.

Lemma shift_arguments_object params cc pc ec s :
  typeof (st_heap s) params ≠ TFunction →
  shift_arguments params cc pc ec s = Ok (params, cc, pc, ec) s.
Proof.
  intros Hty. unfold shift_arguments.
  erewrite bind_Ok by reflexivity.
  by destruct (typeof (st_heap s) params).
Qed.

Lemma shift_arguments_function params cc pc ec s :
  typeof (st_heap s) params = TFunction →
  shift_arguments params cc pc ec s
  = (params' ← new_object ∅; mret (params', params, cc, pc)) s.
Proof.
  intros Hty. unfold shift_arguments.
  erewrite bind_Ok by reflexivity. by rewrite Hty.
Qed.

Lemma call_function name f args s id :
  callable (st_heap s) f = Some id →
  call name f args s = Ok tt (St (st_heap s) (st_trace s ++ [EvCall id args])).
Proof. unfold call. by intros ->. Qed.

Lemma heap_obj_store_prop h l k x l' :
  heap_obj (store_prop h l k x) l'
  = if decide (l = l')
    then Obj (o_call (heap_obj h l)) (<[k := x]> (o_props (heap_obj h l)))
    else heap_obj h l'.
Proof. unfold store_prop. apply heap_obj_insert. Qed.

Lemma callable_store_prop h l k x v :
  callable (store_prop h l k x) v = callable h v.
Proof.
  destruct v as [| | | | |l']; try done. simpl.
  rewrite heap_obj_store_prop. by destruct (decide (l = l')) as [->|].
Qed.

Lemma callable_new_object (h : heap) l props v :
  h !! l = None → callable (<[l := Obj None props]> h) v = callable h v.
Proof.
  intros Hl. destruct v as [| | | | |l']; try done. simpl.
  rewrite heap_obj_insert. destruct (decide (l = l')) as [<-|]; [|done].
  unfold heap_obj. by rewrite Hl.
Qed.

Lemma store_prop_is_Some h l k x l' :
  is_Some (h !! l') → is_Some (store_prop h l k x !! l').
Proof.
  unfold store_prop. rewrite lookup_insert.
  destruct (decide (l = l')); [by eexists|done].
Qed.

Lemma prop_store_prop h l k x l' k' :
  prop (store_prop h l k x) (VRef l') k'
  = if decide (l = l' ∧ k = k') then x else prop h (VRef l') k'.
Proof.
  simpl. rewrite heap_obj_store_prop.
  destruct (decide (l = l')) as [->|Hl]; simpl.
  - rewrite lookup_insert. destruct (decide (k = k')) as [->|Hk].
    + by rewrite decide_True.
    + by rewrite decide_False by (intros [? ?]; done).
  - by rewrite decide_False by (intros [? ?]; done).
Qed.

Lemma fresh_lookup (h : heap) : h !! fresh (dom h) = None.
Proof. apply not_elem_of_dom, is_fresh. Qed.

Lemma override_upload_ok h tr p po fields size :
  h !! p = Some po → descriptor h p fields →
  ∃ h1 u,
    override_upload (VRef p) size (St h tr) = Ok tt (St h1 tr)
    ∧ prop h1 (VRef p) "upload" = VRef u
    ∧ o_props (heap_obj h1 u) = <["size" := size]> (<["approach" := VStr "tus"]> fields)
    ∧ (∀ u0, prop h (VRef p) "upload" = VRef u0 → u = u0)
    ∧ is_Some (h1 !! p) ∧ is_Some (h1 !! u)
    ∧ (∀ v, callable h1 v = callable h v)
    ∧ (∀ k, k ≠ "upload" → prop h1 (VRef p) k = prop h (VRef p) k).
Proof.
  intros Hp [Habsent | u o Hgiven Hu Hne]; unfold override_upload.
  - pose proof (fresh_lookup h) as Hfresh.
    set (l := fresh (dom h)) in *.
    set (h0 := <[l := Obj None (<["size" := size]> (<["approach" := VStr "tus"]> ∅))]> h).
    assert (l ≠ p) as Hlp by (intros ->; congruence).
    exists (store_prop h0 p "upload" (VRef l)), l.
    split; [|split; [|split; [|split; [|split; [|split; [|split]]]]]].
    + erewrite bind_Ok by reflexivity. erewrite bind_Ok by reflexivity.
      cbn [st_heap]. rewrite Habsent. cbn [typeof].
      erewrite bind_Ok by reflexivity. reflexivity.
    + rewrite prop_store_prop. by rewrite decide_True.
    + rewrite heap_obj_store_prop, decide_False by done.
      unfold h0. by rewrite heap_obj_insert, decide_True.
    + intros u0. rewrite Habsent. discriminate.
    + apply store_prop_is_Some. unfold h0.
      rewrite lookup_insert_ne by done. by eexists.
    + apply store_prop_is_Some. unfold h0.
      rewrite lookup_insert_eq. by eexists.
    + intros v. rewrite callable_store_prop. by apply callable_new_object.
    + intros k Hk. rewrite prop_store_prop, decide_False by (intros [? ?]; done).
      simpl. unfold h0. by rewrite heap_obj_insert, decide_False.
  - set (h0 := store_prop h u "approach" (VStr "tus")).
    exists (store_prop h0 u "size" size), u.
    assert (prop h0 (VRef p) "upload" = VRef u) as Hupload.
    { unfold h0. by rewrite prop_store_prop, decide_False by (intros [? ?]; done). }
    split; [|split; [|split; [|split; [|split; [|split; [|split]]]]]].
    + erewrite bind_Ok by reflexivity. erewrite bind_Ok by reflexivity.
      cbn [st_heap]. rewrite Hgiven.
      assert (typeof h (VRef u) ≠ TUndefined) as Hty
        by (simpl; by destruct (o_call _)).
      transitivity ((params_upload ← get_prop (VRef p) "upload";
                     set_prop params_upload "approach" (VStr "tus");;
                     params_upload ← get_prop (VRef p) "upload";
                     set_prop params_upload "size" size) (St h tr)).
      { by destruct (typeof h (VRef u)). }
      erewrite bind_Ok by reflexivity. cbn [st_heap]. rewrite Hgiven.
      erewrite bind_Ok by reflexivity.
      erewrite bind_Ok by reflexivity. cbn [st_heap]. fold h0. rewrite Hupload.
      reflexivity.
    + by rewrite prop_store_prop, decide_False by (intros [? ?]; done).
    + rewrite heap_obj_store_prop, decide_True by done. simpl.
      unfold h0. rewrite heap_obj_store_prop, decide_True by done. simpl.
      unfold heap_obj. by rewrite Hu.
    + intros u0. rewrite Hgiven. by intros [= ->].
    + do 2 apply store_prop_is_Some. by eexists.
    + do 2 apply store_prop_is_Some. by eexists.
    + intros v. unfold h0. by rewrite !callable_store_prop.
    + intros k Hk. unfold h0.
      by rewrite !prop_store_prop, !decide_False by (intros [? ?]; done).
Qed.

(** ** What a computation does to the store and to the trace *)

Lemma keeps_store_ret {A} (a : A) : keeps_store (mret a).
Proof. by intros s. Qed.

Lemma keeps_store_throw {A} e : keeps_store (@throw A e).
Proof. by intros s. Qed.

Lemma keeps_store_bind {A B} (m : M A) (f : A → M B) :
  keeps_store m → (∀ a, keeps_store (f a)) → keeps_store (m ≫= f).
Proof.
  intros Hm Hf s. specialize (Hm s). unfold mbind, M_bind.
  destruct (m s) as [a s1|e s1]; simpl in *; [|done].
  by rewrite Hf.
Qed.

Lemma keeps_store_try_catch {A} (body : M A) handler :
  keeps_store body → (∀ e, keeps_store (handler e)) →
  keeps_store (try_catch body handler).
Proof.
  intros Hm Hf s. specialize (Hm s). unfold try_catch.
  destruct (body s) as [a s1|e s1]; simpl in *; [done|].
  by rewrite Hf.
Qed.

Lemma keeps_store_get_heap : keeps_store get_heap.
Proof. by intros s. Qed.

Lemma keeps_store_get_prop v k : keeps_store (get_prop v k).
Proof. intros s. by destruct v. Qed.

Lemma keeps_store_emit e : keeps_store (emit e).
Proof. by intros s. Qed.

Lemma keeps_store_call name f args : keeps_store (call name f args).
Proof. intros s. unfold call. by destruct (callable _ _). Qed.

Lemma keeps_store_initiate_failed ec e : keeps_store (initiate_failed ec e).
Proof.
  apply keeps_store_bind; [apply keeps_store_call|].
  intros _. apply keeps_store_ret.
Qed.

Lemma keeps_store_performTusUpload file size attempt cc pc ec :
  keeps_store (_performTusUpload file size attempt cc pc ec).
Proof.
  unfold _performTusUpload. apply keeps_store_bind.
  - destruct file; try apply keeps_store_ret.
    apply keeps_store_bind; [apply keeps_store_emit|].
    intros _. apply keeps_store_ret.
  - intros src. apply keeps_store_bind; [apply keeps_store_get_prop|].
    intros au. apply keeps_store_bind; [apply keeps_store_get_prop|].
    intros link. apply keeps_store_ret.
Qed.

Lemma emits_weaken {A} (P Q : event → Prop) (m : M A) :
  (∀ e, P e → Q e) → emits P m → emits Q m.
Proof.
  intros HPQ Hm s. destruct (Hm s) as (new & Heq & Hnew).
  exists new. split; [done|]. eapply Forall_impl; eauto.
Qed.

Lemma emits_silent {A} P (m : M A) :
  (∀ s, st_trace (final_state (m s)) = st_trace s) → emits P m.
Proof. intros Hm s. exists []. by rewrite Hm, app_nil_r. Qed.

Lemma emits_ret {A} P (a : A) : emits P (mret a).
Proof. by apply emits_silent. Qed.

Lemma emits_throw {A} P e : emits P (@throw A e).
Proof. by apply emits_silent. Qed.

Lemma emits_get_heap P : emits P get_heap.
Proof. by apply emits_silent. Qed.

Lemma emits_get_prop P v k : emits P (get_prop v k).
Proof. apply emits_silent. intros s. by destruct v. Qed.

Lemma emits_set_prop P v k x : emits P (set_prop v k x).
Proof. apply emits_silent. intros s. by destruct v. Qed.

Lemma emits_new_object P props : emits P (new_object props).
Proof. by apply emits_silent. Qed.

Lemma emits_materialise P j : emits P (materialise j).
Proof.
  apply emits_silent. intros s. unfold materialise.
  by destruct (alloc_json j (st_heap s)).
Qed.

Lemma emits_emit (P : event → Prop) e : P e → emits P (emit e).
Proof. intros He s. exists [e]. split; [done|]. by constructor. Qed.

Lemma emits_call (P : event → Prop) name f args :
  (∀ id, P (EvCall id args)) → emits P (call name f args).
Proof.
  intros HP s. unfold call. destruct (callable _ _) as [id|].
  - by apply emits_emit.
  - exists []. by rewrite app_nil_r.
Qed.

Lemma emits_bind {A B} P (m : M A) (f : A → M B) :
  emits P m → (∀ a, emits P (f a)) → emits P (m ≫= f).
Proof.
  intros Hm Hf s. destruct (Hm s) as (new & Heq & Hnew).
  unfold mbind, M_bind. destruct (m s) as [a s1|e s1]; simpl in *.
  - destruct (Hf a s1) as (new' & Heq' & Hnew').
    exists (new ++ new'). rewrite Heq', Heq, app_assoc.
    split; [done|]. by apply Forall_app.
  - by exists new.
Qed.

Lemma emits_try_catch {A} P (body : M A) handler :
  emits P body → (∀ e, emits P (handler e)) → emits P (try_catch body handler).
Proof.
  intros Hm Hf s. destruct (Hm s) as (new & Heq & Hnew).
  unfold try_catch. destruct (body s) as [a s1|e s1]; simpl in *.
  - by exists new.
  - destruct (Hf e s1) as (new' & Heq' & Hnew').
    exists (new ++ new'). rewrite Heq', Heq, app_assoc.
    split; [done|]. by apply Forall_app.
Qed.

Lemma emits_await_Axios_post (P : event → Prop) node url data headers :
  (∀ h, P (EvAxiosPost url data h headers)) →
  emits P (await_Axios_post node url data headers).
Proof.
  intros HP s. unfold await_Axios_post.
  exists [EvAxiosPost url data (st_heap s) headers].
  split; [|by constructor].
  destruct (Axios_post _ _ _ _ _) as [e|j]; [done|].
  unfold materialise. by destruct (alloc_json _ _).
Qed.

Lemma emits_initiate_failed (P : event → Prop) ec e :
  (∀ id args, P (EvCall id args)) → emits P (initiate_failed ec e).
Proof.
  intros HP. apply emits_bind; [by apply emits_call|].
  intros _. apply emits_ret.
Qed.

Lemma emits_performTusUpload (P : event → Prop) file size attempt cc pc ec :
  (∀ path, P (EvCreateReadStream path)) →
  emits P (_performTusUpload file size attempt cc pc ec).
Proof.
  intros HP. unfold _performTusUpload. apply emits_bind.
  - destruct file; try apply emits_ret.
    apply emits_bind; [by apply emits_emit|].
    intros _. apply emits_ret.
  - intros src. apply emits_bind; [apply emits_get_prop|].
    intros au. apply emits_bind; [apply emits_get_prop|].
    intros link. apply emits_ret.
Qed.

Lemma emits_shift_arguments P params cc pc ec :
  emits P (shift_arguments params cc pc ec).
Proof.
  unfold shift_arguments. apply emits_bind; [apply emits_get_heap|].
  intros h. destruct (typeof h params); try apply emits_ret.
  apply emits_bind; [apply emits_new_object|]. intros ?. apply emits_ret.
Qed.

Lemma emits_override_upload P params size :
  emits P (override_upload params size).
Proof.
  unfold override_upload. apply emits_bind; [apply emits_get_prop|].
  intros pu. apply emits_bind; [apply emits_get_heap|].
  intros h.
  assert (emits P (params_upload ← get_prop params "upload";
                   set_prop params_upload "approach" (VStr "tus");;
                   params_upload ← get_prop params "upload";
                   set_prop params_upload "size" size)) as Helse.
  { apply emits_bind; [apply emits_get_prop|]. intros ?.
    apply emits_bind; [apply emits_set_prop|]. intros _.
    apply emits_bind; [apply emits_get_prop|]. intros ?.
    apply emits_set_prop. }
  destruct (typeof h pu); try apply Helse.
  apply emits_bind; [apply emits_new_object|]. intros ?. apply emits_set_prop.
Qed.

(** ** Up to the intent declaration *)

Lemma typeof_object h p po :
  h !! p = Some po → o_call po = None → typeof h (VRef p) ≠ TFunction.
Proof.
  intros Hp Hcall. unfold typeof, heap_obj. rewrite Hp. simpl. by rewrite Hcall.
Qed.

Lemma upload_prefix node this file p po fields size cc pc ec h tr :
  h !! p = Some po → o_call po = None → descriptor h p fields →
  resolved_size node h file = Some size →
  ∃ h1 u,
    upload node this file (VRef p) cc pc ec (St h tr)
    = try_catch
        (data ← await_Axios_post node "/me/videos?field=uri,name,upload"
                  (VRef p) (ro_headers (_requestOptions this));
         u ← _performTusUpload file size data cc pc ec;
         mret (RUpload u))
        (initiate_failed ec) (St h1 tr)
    ∧ prop h1 (VRef p) "upload" = VRef u
    ∧ o_props (heap_obj h1 u) = <["size" := size]> (<["approach" := VStr "tus"]> fields)
    ∧ (∀ u0, prop h (VRef p) "upload" = VRef u0 → u = u0)
    ∧ is_Some (h1 !! p) ∧ is_Some (h1 !! u)
    ∧ (∀ v, callable h1 v = callable h v).
Proof.
  intros Hp Hcall Hdesc Hsize.
  destruct (override_upload_ok h tr p po fields size Hp Hdesc)
    as (h1 & u & Hrun & Hupload & Hfields & Hsame & Hp1 & Hu1 & Hcallable & _).
  exists h1, u. split; [|done].
  unfold upload.
  erewrite bind_Ok by (apply shift_arguments_object; by eapply typeof_object).
  cbv beta iota.
  match goal with
  | |- (?m ≫= _) ?s = _ => assert (m s = Ok (Continue size) s) as Hsized
  end.
  { destruct file as [| | b | n | path | l]; simpl in Hsize;
      try discriminate; simplify_eq; try reflexivity.
    by destruct (fs_statSync_size node path); simplify_eq/=. }
  erewrite bind_Ok by exact Hsized. cbv beta iota.
  by erewrite bind_Ok by exact Hrun.
Qed.

Lemma descriptor_store_prop h p fields k x :
  k ≠ "upload" → descriptor h p fields →
  descriptor (store_prop h p k x) p fields.
Proof.
  intros Hk [Habsent | u o Hgiven Hu Hne].
  - apply descriptor_absent.
    by rewrite prop_store_prop, decide_False by (intros [? ?]; done).
  - apply descriptor_given with u; [|
      unfold store_prop; by rewrite lookup_insert_ne by done | done].
    by rewrite prop_store_prop, decide_False by (intros [? ?]; done).
Qed.

Lemma replace_prefix node this file videoUri p po fields size cc pc ec h tr :
  h !! p = Some po → o_call po = None → descriptor h p fields →
  resolved_size node h file = Some size →
  ∃ h1 u,
    replace node this file videoUri (VRef p) cc pc ec (St h tr)
    = try_catch
        (data ← await_Axios_post node (videoUri +:+ "/versions?fields=upload")
                  (VRef p) (ro_headers (_requestOptions this));
         set_prop data "uri" (VStr videoUri);;
         u ← _performTusUpload file size data cc pc ec;
         mret (RUpload u))
        (initiate_failed ec) (St h1 tr)
    ∧ prop h1 (VRef p) "file_name" = resolved_name node h file
    ∧ prop h1 (VRef p) "upload" = VRef u
    ∧ o_props (heap_obj h1 u) = <["size" := size]> (<["approach" := VStr "tus"]> fields)
    ∧ (∀ u0, prop h (VRef p) "upload" = VRef u0 → u = u0)
    ∧ is_Some (h1 !! p) ∧ is_Some (h1 !! u)
    ∧ (∀ v, callable h1 v = callable h v).
Proof.
  intros Hp Hcall Hdesc Hsize.
  set (name := resolved_name node h file).
  set (h0 := store_prop h p "file_name" name).
  assert (h0 !! p = Some (Obj (o_call po) (<["file_name" := name]> (o_props po))))
    as Hp0.
  { unfold h0, store_prop, heap_obj. by rewrite lookup_insert_eq, Hp. }
  assert (descriptor h0 p fields) as Hdesc0
    by by apply descriptor_store_prop.
  destruct (override_upload_ok h0 tr p _ fields size Hp0 Hdesc0)
    as (h1 & u & Hrun & Hupload & Hfields & Hsame & Hp1 & Hu1 & Hcallable & Hframe).
  exists h1, u. split; [|split; [|split; [|split; [|split; [|split; [|split]]]]]];
    try done.
  - unfold replace.
    erewrite bind_Ok by (apply shift_arguments_object; by eapply typeof_object).
    cbv beta iota.
    match goal with
    | |- (?m ≫= _) ?s = _ => assert (m s = Ok (Continue size) (St h0 tr)) as Hsized
    end.
    { destruct file as [| | b | n | path | l]; simpl in Hsize;
        try discriminate; simplify_eq; try reflexivity.
      by destruct (fs_statSync_size node path); simplify_eq/=. }
    erewrite bind_Ok by exact Hsized. cbv beta iota.
    by erewrite bind_Ok by exact Hrun.
  - rewrite Hframe by done. unfold h0.
    by rewrite prop_store_prop, decide_True.
  - intros u0 Hu0. apply Hsame. unfold h0.
    by rewrite prop_store_prop, decide_False by (intros [? ?]; done).
  - intros v. rewrite Hcallable. apply callable_store_prop.
Qed.

(** ** The intent declaration and what follows it *)

Lemma await_Axios_post_run node url data headers h tr :
  await_Axios_post node url data headers (St h tr)
  = match Axios_post node url data h headers with
    | inl error => Throw error (St h (tr ++ [EvAxiosPost url data h headers]))
    | inr j => Ok (alloc_json j h).1
                  (St (alloc_json j h).2 (tr ++ [EvAxiosPost url data h headers]))
    end.
Proof.
  unfold await_Axios_post, materialise. simpl.
  destruct (Axios_post _ _ _ _ _) as [e|j]; [done|].
  by destruct (alloc_json j h).
Qed.

Lemma final_state_try_catch {A} (body : M A) handler s :
  final_state (try_catch body handler s)
  = match body s with
    | Ok _ s' => s'
    | Throw e s' => final_state (handler e s')
    end.
Proof. unfold try_catch. by destruct (body s). Qed.

Lemma final_state_bind {A B} (m : M A) (f : A → M B) s :
  final_state ((m ≫= f) s)
  = match m s with
    | Ok a s' => final_state (f a s')
    | Throw e s' => s'
    end.
Proof. unfold mbind, M_bind. by destruct (m s). Qed.

(** Objects that exist before the POST are not touched after it, as long as
    the continuation only writes to the response. *)
Lemma try_post_keeps_old {A} node url data headers (k : val → M A) handler h tr :
  (∀ v h2 tr2, extends h h2 → (∀ d, v = VRef d → h !! d = None ∧ is_Some (h2 !! d)) →
     ∀ l, is_Some (h !! l) →
       st_heap (final_state (k v (St h2 tr2))) !! l = h !! l) →
  (∀ e, keeps_store (handler e)) →
  ∀ l, is_Some (h !! l) →
    st_heap (final_state
      (try_catch (await_Axios_post node url data headers ≫= k) handler (St h tr)))
    !! l = h !! l.
Proof.
  intros Hk Hhandler l Hl.
  assert (st_heap (final_state
            (try_catch (await_Axios_post node url data headers ≫= k) handler (St h tr)))
          = st_heap (final_state ((await_Axios_post node url data headers ≫= k) (St h tr))))
    as ->.
  { rewrite final_state_try_catch.
    destruct ((await_Axios_post node url data headers ≫= k) (St h tr)); [done|].
    apply Hhandler. }
  rewrite final_state_bind, await_Axios_post_run.
  destruct (Axios_post _ _ _ _ _) as [e|j]; [done|].
  destruct (alloc_json j h) as [v h2] eqn:Halloc.
  apply alloc_json_ok in Halloc as [Hext Hfresh]. simpl. by apply Hk.
Qed.

Lemma try_post_trace {A} (P : event → Prop) node url data headers
    (k : val → M A) handler h tr :
  (∀ v, emits P (k v)) → (∀ e, emits P (handler e)) →
  ∃ rest,
    st_trace (final_state
      (try_catch (await_Axios_post node url data headers ≫= k) handler (St h tr)))
    = tr ++ EvAxiosPost url data h headers :: rest
    ∧ Forall P rest.
Proof.
  intros Hk Hhandler.
  rewrite final_state_try_catch. unfold mbind at 1, M_bind at 1.
  rewrite await_Axios_post_run.
  destruct (Axios_post _ _ _ _ _) as [e|j].
  - destruct (Hhandler e (St h (tr ++ [EvAxiosPost url data h headers])))
      as (new & Heq & Hnew). simpl in Heq.
    exists new. by rewrite Heq, <- app_assoc.
  - set (s2 := St _ _).
    destruct (Hk (alloc_json j h).1 s2) as (new & Heq & Hnew).
    destruct (k _ s2) as [a s3|e s3]; simpl in Heq.
    + exists new. by rewrite Heq, <- app_assoc.
    + destruct (Hhandler e s3) as (new' & Heq' & Hnew').
      exists (new ++ new'). rewrite Heq', Heq. simpl.
      rewrite <- !app_assoc. split; [done|]. by apply Forall_app.
Qed.

Lemma extends_lookup h h2 l :
  extends h h2 → is_Some (h !! l) → h2 !! l = h !! l.
Proof. intros [Hsub _] [o Ho]. by rewrite (lookup_weaken _ _ _ _ Ho Hsub). Qed.

Lemma upload_rest_keeps_old file size cc pc ec h v h2 tr2 l :
  extends h h2 → is_Some (h !! l) →
  st_heap (final_state
    ((u ← _performTusUpload file size v cc pc ec; mret (RUpload u)) (St h2 tr2)))
  !! l = h !! l.
Proof.
  intros Hext Hl. rewrite keeps_store_bind.
  - by apply extends_lookup.
  - apply keeps_store_performTusUpload.
  - intros u. apply keeps_store_ret.
Qed.

Lemma replace_rest_keeps_old file size videoUri cc pc ec h v h2 tr2 l :
  extends h h2 → (∀ d, v = VRef d → h !! d = None ∧ is_Some (h2 !! d)) →
  is_Some (h !! l) →
  st_heap (final_state
    ((set_prop v "uri" (VStr videoUri);;
      u ← _performTusUpload file size v cc pc ec; mret (RUpload u)) (St h2 tr2)))
  !! l = h !! l.
Proof.
  intros Hext Hfresh Hl. rewrite final_state_bind.
  destruct v as [| | b | n | str | d]; simpl; try by apply extends_lookup.
  rewrite upload_rest_keeps_old with (h := store_prop h2 d "uri" (VStr videoUri)).
  - unfold store_prop. rewrite lookup_insert_ne; [by apply extends_lookup|].
    intros ->. destruct (Hfresh l eq_refl) as [Hnone _].
    rewrite Hnone in Hl. by destruct Hl.
  - apply extends_refl.
  - apply store_prop_is_Some. by rewrite (extends_lookup h h2 l Hext Hl).
Qed.

Lemma prop_same_object h h' l k :
  h' !! l = h !! l → prop h' (VRef l) k = prop h (VRef l) k.
Proof. intros Heq. simpl. unfold heap_obj. by rewrite Heq. Qed.

Lemma forced_descriptor h1 h' p u fields size :
  prop h1 (VRef p) "upload" = VRef u →
  o_props (heap_obj h1 u) = <["size" := size]> (<["approach" := VStr "tus"]> fields) →
  h' !! p = h1 !! p → h' !! u = h1 !! u →
  prop h' (VRef p) "upload" = VRef u
  ∧ prop h' (VRef u) "approach" = VStr "tus"
  ∧ prop h' (VRef u) "size" = size
  ∧ ∀ k, k ≠ "approach" → k ≠ "size" →
      o_props (heap_obj h' u) !! k = fields !! k.
Proof.
  intros Hupload Hfields Hp Hu.
  assert (heap_obj h' u = heap_obj h1 u) as Hobj
    by (unfold heap_obj; by rewrite Hu).
  split; [by rewrite (prop_same_object h1)|].
  simpl. rewrite Hobj, Hfields.
  split; [by rewrite lookup_insert_ne, lookup_insert_eq|].
  split; [by rewrite lookup_insert_eq|].
  intros k Ha Hs. by rewrite !lookup_insert_ne.
Qed.

(** ** Reading a materialised response *)

Lemma alloc_fields_lookup k fields :
  ∀ props h found,
    (∀ jk, found = Some jk →
       ∃ hk, props !! k = Some (alloc_json jk hk).1
             ∧ extends (alloc_json jk hk).2 h) →
    ∀ jk, last_field k fields found = Some jk →
      ∃ hk, (alloc_fields alloc_json fields props h).1 !! k
            = Some (alloc_json jk hk).1
            ∧ extends (alloc_json jk hk).2 (alloc_fields alloc_json fields props h).2.
Proof.
  induction fields as [|[k' j] fields IH]; simpl; intros props h found Hinv jk Hjk.
  - by apply Hinv.
  - destruct (alloc_json j h) as [v h1] eqn:Halloc.
    apply IH with (found := if String.eqb k' k then Some j else found);
      [|done].
    intros jk' Hfound. destruct (String.eqb_spec k' k) as [->|Hne].
    + simplify_eq. exists h. rewrite Halloc, lookup_insert_eq.
      split; [done|apply extends_refl].
    + destruct (Hinv jk' Hfound) as (hk & Hlookup & Hext).
      exists hk. rewrite lookup_insert_ne by done. split; [done|].
      eapply extends_trans; [done|]. by eapply alloc_json_ok.
Qed.

Lemma alloc_json_field j h k jk :
  json_field j k = Some jk →
  ∃ d hk, (alloc_json j h).1 = VRef d
    ∧ is_Some ((alloc_json j h).2 !! d)
    ∧ prop (alloc_json j h).2 (VRef d) k = (alloc_json jk hk).1
    ∧ extends (alloc_json jk hk).2 (alloc_json j h).2.
Proof.
  destruct j as [| | | | |fields]; try discriminate. simpl. intros Hjk.
  destruct (alloc_fields_lookup k fields ∅ h None) with (jk := jk)
    as (hk & Hlookup & Hext); [discriminate|done|].
  destruct (alloc_fields alloc_json fields ∅ h) as [props h1]. simpl in *.
  exists (fresh (dom h1)), hk.
  split; [done|]. rewrite lookup_insert_eq. split; [by eexists|].
  rewrite heap_obj_insert, decide_True by done. simpl. rewrite Hlookup.
  split; [done|]. eapply extends_trans; [done|apply extends_fresh].
Qed.

(** A response with an upload link, once materialised. *)
Lemma alloc_json_upload_link j h ju link :
  json_field j "upload" = Some ju →
  json_field ju "upload_link" = Some (JStr link) →
  ∃ d lu, (alloc_json j h).1 = VRef d
    ∧ is_Some ((alloc_json j h).2 !! d)
    ∧ prop (alloc_json j h).2 (VRef d) "upload" = VRef lu
    ∧ prop (alloc_json j h).2 (VRef lu) "upload_link" = VStr link.
Proof.
  intros Hupload Hlink.
  destruct (alloc_json_field j h "upload" ju Hupload)
    as (d & hk & Hd & Hsome & Hprop & Hext).
  destruct (alloc_json_field ju hk "upload_link" (JStr link) Hlink)
    as (lu & hk' & Hlu & Hsome' & Hprop' & _).
  exists d, lu. rewrite Hprop, Hlu.
  split; [done|]. split; [done|]. split; [done|].
  by rewrite (prop_extends _ _ _ _ Hext Hsome').
Qed.

Lemma performTusUpload_run file size d lu cc pc ec h tr :
  prop h (VRef d) "upload" = VRef lu →
  _performTusUpload file size (VRef d) cc pc ec (St h tr)
  = Ok {| tus_file := tus_source_of file;
          tus_options_of :=
            {| endpoint := "none";
               uploadSize := size;
               retryDelays := [0; 1000; 3000; 5000];
               onError := ec;
               onProgress := pc;
               onSuccess := SuccessClosure cc (VRef d) |};
          tus_url := prop h (VRef lu) "upload_link";
          tus_started := false |}
       (St h (tr ++ stream_events file)).
Proof.
  intros Hupload. unfold _performTusUpload.
  assert (∀ A (k : tus_source → M A),
    (src ← match file with
           | VStr path => emit (EvCreateReadStream path);; mret (SrcStream path)
           | _ => mret (SrcValue file)
           end; k src) (St h tr)
    = k (tus_source_of file) (St h (tr ++ stream_events file))) as Hsrc.
  { intros A k. destruct file; simpl; by rewrite ?app_nil_r. }
  rewrite Hsrc. erewrite bind_Ok by reflexivity.
  cbn [st_heap]. rewrite Hupload. by erewrite bind_Ok by reflexivity.
Qed.

(** ** A successful intent declaration *)

Lemma upload_succeeds node this file p po fields size cc pc ec h tr j ju link :
  h !! p = Some po → o_call po = None → descriptor h p fields →
  resolved_size node h file = Some size →
  answered node
    (st_trace (final_state (upload node this file (VRef p) cc pc ec (St h tr)))) j →
  json_field j "upload" = Some ju →
  json_field ju "upload_link" = Some (JStr link) →
  ∃ h1 h' d,
    upload node this file (VRef p) cc pc ec (St h tr)
    = Ok (RUpload
            {| tus_file := tus_source_of file;
               tus_options_of :=
                 {| endpoint := "none";
                    uploadSize := size;
                    retryDelays := [0; 1000; 3000; 5000];
                    onError := ec;
                    onProgress := pc;
                    onSuccess := SuccessClosure cc (VRef d) |};
               tus_url := VStr link;
               tus_started := false |})
         (St h' (tr ++ EvAxiosPost "/me/videos?field=uri,name,upload" (VRef p) h1
                         (ro_headers (_requestOptions this))
                       :: stream_events file))
    ∧ (∀ v, callable h' v = callable h v).
Proof.
  intros Hp Hcall Hdesc Hsize Hanswered Hupload Hlink.
  destruct (upload_prefix node this file p po fields size cc pc ec h tr
              Hp Hcall Hdesc Hsize)
    as (h1 & u & Hrun & _ & _ & _ & _ & _ & Hcallable).
  rewrite Hrun in Hanswered |- *.
  assert (Axios_post node "/me/videos?field=uri,name,upload" (VRef p) h1
            (ro_headers (_requestOptions this)) = inr j) as Hpost.
  { apply Hanswered.
    destruct (try_post_trace (λ _, True) node "/me/videos?field=uri,name,upload"
                (VRef p) (ro_headers (_requestOptions this))
                (λ data, u ← _performTusUpload file size data cc pc ec;
                         mret (RUpload u))
                (initiate_failed ec) h1 tr) as (rest & Heq & _).
    - intros v. apply emits_bind; [by apply emits_performTusUpload|].
      intros ?. apply emits_ret.
    - intros e. by apply emits_initiate_failed.
    - rewrite Heq. apply in_elt. }
  pose proof (alloc_json_upload_link j h1 ju link Hupload Hlink)
    as (d & lu & Hd & Hsome & Hup & Hlu).
  destruct (alloc_json j h1) as [v h2] eqn:Halloc. cbn [fst snd] in *. subst v.
  destruct (alloc_json_ok j h1 _ _ Halloc) as [Hext _].
  exists h1, h2, d. split.
  - unfold try_catch. erewrite bind_Ok; cycle 1.
    { rewrite await_Axios_post_run, Hpost, Halloc. reflexivity. }
    erewrite bind_Ok by (by apply performTusUpload_run).
    cbn [fst snd]. rewrite Hlu. simpl. by rewrite <- app_assoc.
  - intros v. by rewrite (callable_extends h1 h2).
Qed.

Lemma replace_succeeds node this file videoUri p po fields size cc pc ec
    h tr j ju link :
  h !! p = Some po → o_call po = None → descriptor h p fields →
  resolved_size node h file = Some size →
  answered node
    (st_trace (final_state
       (replace node this file videoUri (VRef p) cc pc ec (St h tr)))) j →
  json_field j "upload" = Some ju →
  json_field ju "upload_link" = Some (JStr link) →
  ∃ h1 h' d,
    replace node this file videoUri (VRef p) cc pc ec (St h tr)
    = Ok (RUpload
            {| tus_file := tus_source_of file;
               tus_options_of :=
                 {| endpoint := "none";
                    uploadSize := size;
                    retryDelays := [0; 1000; 3000; 5000];
                    onError := ec;
                    onProgress := pc;
                    onSuccess := SuccessClosure cc (VRef d) |};
               tus_url := VStr link;
               tus_started := false |})
         (St h' (tr ++ EvAxiosPost (videoUri +:+ "/versions?fields=upload")
                         (VRef p) h1 (ro_headers (_requestOptions this))
                       :: stream_events file))
    ∧ prop h1 (VRef p) "file_name" = resolved_name node h file
    ∧ prop h' (VRef d) "uri" = VStr videoUri
    ∧ (∀ v, callable h' v = callable h v).
Proof.
  intros Hp Hcall Hdesc Hsize Hanswered Hupload Hlink.
  destruct (replace_prefix node this file videoUri p po fields size cc pc ec h tr
              Hp Hcall Hdesc Hsize)
    as (h1 & u & Hrun & Hname & _ & _ & _ & _ & _ & Hcallable).
  rewrite Hrun in Hanswered |- *.
  assert (Axios_post node (videoUri +:+ "/versions?fields=upload") (VRef p) h1
            (ro_headers (_requestOptions this)) = inr j) as Hpost.
  { apply Hanswered.
    destruct (try_post_trace (λ _, True) node
                (videoUri +:+ "/versions?fields=upload")
                (VRef p) (ro_headers (_requestOptions this))
                (λ data, set_prop data "uri" (VStr videoUri);;
                         u ← _performTusUpload file size data cc pc ec;
                         mret (RUpload u))
                (initiate_failed ec) h1 tr) as (rest & Heq & _).
    - intros v. apply emits_bind; [apply emits_set_prop|]. intros _.
      apply emits_bind; [by apply emits_performTusUpload|].
      intros ?. apply emits_ret.
    - intros e. by apply emits_initiate_failed.
    - rewrite Heq. apply in_elt. }
  pose proof (alloc_json_upload_link j h1 ju link Hupload Hlink)
    as (d & lu & Hd & Hsome & Hup & Hlu).
  destruct (alloc_json j h1) as [v h2] eqn:Halloc. cbn [fst snd] in *. subst v.
  destruct (alloc_json_ok j h1 _ _ Halloc) as [Hext _].
  set (h3 := store_prop h2 d "uri" (VStr videoUri)).
  exists h1, h3, d. split; [|split; [done|split]].
  - unfold try_catch. erewrite bind_Ok; cycle 1.
    { rewrite await_Axios_post_run, Hpost, Halloc. reflexivity. }
    erewrite bind_Ok by reflexivity. cbn [st_heap st_trace fst snd]. fold h3.
    erewrite bind_Ok; cycle 1.
    { apply performTusUpload_run with (lu := lu). unfold h3.
      by rewrite prop_store_prop, decide_False by (intros [? ?]; done). }
    unfold h3.
    rewrite prop_store_prop, decide_False by (intros [? ?]; done).
    rewrite Hlu. simpl. by rewrite <- app_assoc.
  - unfold h3. by rewrite prop_store_prop, decide_True.
  - intros v. unfold h3.
    by rewrite callable_store_prop, (callable_extends h1 h2).
Qed.

(** ** The claims about [upload] and [replace] *)

(** C1: when the path cannot be stat'ed, [upload] calls [onError] with the
    fixed message, settles with [null] and does nothing else: the store is
    as before and the only event is that call, so no HTTP call is made. *)
Theorem upload_missing_file node this path params onComplete onProgress onError s f :
  fs_statSync_size node path = None →
  typeof (st_heap s) params ≠ TFunction →
  callable (st_heap s) onError = Some f →
  let said := [EvCall f [VStr "Unable to locate file to upload."]] in
  upload node this (VStr path) params onComplete onProgress onError s
  = Ok RNull (St (st_heap s) (st_trace s ++ said))
  ∧ Forall (λ e, is_http e = false) said.
Proof.
  intros Hstat Hparams Hf said. split; [|by repeat constructor].
  unfold upload.
  erewrite bind_Ok by by apply shift_arguments_object.
  rewrite Hstat.
  erewrite bind_Ok
    by (erewrite bind_Ok by (by apply call_function); reflexivity).
  reflexivity.
Qed.

(** C2: after [upload] or [replace], however the run ends, [params.upload]
    is an object whose [approach] is ["tus"] and whose [size] is the
    resolved file size, every other field being what the caller supplied;
    when the caller supplied a descriptor it is that same object, updated
    in place. *)
Theorem upload_descriptor_forced node this file videoUri p po fields size
    onComplete onProgress onError s s' :
  st_heap s !! p = Some po → o_call po = None →
  descriptor (st_heap s) p fields →
  resolved_size node (st_heap s) file = Some size →
  s' = final_state (upload node this file (VRef p) onComplete onProgress onError s)
  ∨ s' = final_state (replace node this file videoUri (VRef p)
                        onComplete onProgress onError s) →
  ∃ u,
    prop (st_heap s') (VRef p) "upload" = VRef u
    ∧ prop (st_heap s') (VRef u) "approach" = VStr "tus"
    ∧ prop (st_heap s') (VRef u) "size" = size
    ∧ (∀ k, k ≠ "approach" → k ≠ "size" →
         o_props (heap_obj (st_heap s') u) !! k = fields !! k)
    ∧ (∀ u0, prop (st_heap s) (VRef p) "upload" = VRef u0 → u = u0).
Proof.
  destruct s as [h tr]. simpl. intros Hp Hcall Hdesc Hsize [-> | ->].
  - destruct (upload_prefix node this file p po fields size
                onComplete onProgress onError h tr Hp Hcall Hdesc Hsize)
      as (h1 & u & -> & Hupload & Hfields & Hsame & Hp1 & Hu1 & _).
    exists u.
    match goal with |- context [final_state ?r] => set (fin := final_state r) end.
    assert (∀ l, is_Some (h1 !! l) → st_heap fin !! l = h1 !! l) as Hold.
    { intros l Hl.
      apply try_post_keeps_old; [|apply keeps_store_initiate_failed|done].
      intros. by apply upload_rest_keeps_old. }
    destruct (forced_descriptor h1 (st_heap fin) p u fields size Hupload Hfields
                (Hold p Hp1) (Hold u Hu1)) as (? & ? & ? & ?).
    repeat split; done.
  - destruct (replace_prefix node this file videoUri p po fields size
                onComplete onProgress onError h tr Hp Hcall Hdesc Hsize)
      as (h1 & u & -> & _ & Hupload & Hfields & Hsame & Hp1 & Hu1 & _).
    exists u.
    match goal with |- context [final_state ?r] => set (fin := final_state r) end.
    assert (∀ l, is_Some (h1 !! l) → st_heap fin !! l = h1 !! l) as Hold.
    { intros l Hl.
      apply try_post_keeps_old; [|apply keeps_store_initiate_failed|done].
      intros. by apply replace_rest_keeps_old. }
    destruct (forced_descriptor h1 (st_heap fin) p u fields size Hupload Hfields
                (Hold p Hp1) (Hold u Hu1)) as (? & ? & ? & ?).
    repeat split; done.
Qed.

(** C3: when the intent declaration is answered with a body that holds an
    upload link, [upload] and [replace] return a handle whose URL is that
    link, whose declared size is the resolved file size, whose retry delays
    are 0, 1000, 3000 and 5000 ms, and which has not been started: the run
    consists of the POST and, for a path, the opening of the read stream. *)
Theorem handle_of_declared_upload node this file videoUri p po fields size
    onComplete onProgress onError s j ju link run :
  st_heap s !! p = Some po → o_call po = None →
  descriptor (st_heap s) p fields →
  resolved_size node (st_heap s) file = Some size →
  run = upload node this file (VRef p) onComplete onProgress onError
  ∨ run = replace node this file videoUri (VRef p) onComplete onProgress onError →
  answered node (st_trace (final_state (run s))) j →
  json_field j "upload" = Some ju →
  json_field ju "upload_link" = Some (JStr link) →
  ∃ u s' url snapshot headers,
    run s = Ok (RUpload u) s'
    ∧ tus_url u = VStr link
    ∧ uploadSize (tus_options_of u) = size
    ∧ retryDelays (tus_options_of u) = [0; 1000; 3000; 5000]
    ∧ tus_started u = false
    ∧ st_trace s' = st_trace s ++ EvAxiosPost url (VRef p) snapshot headers
                                  :: stream_events file.
Proof.
  destruct s as [h tr]. cbn [st_heap st_trace].
  intros Hp Hcall Hdesc Hsize [-> | ->] Hanswered Hupload Hlink.
  - destruct (upload_succeeds node this file p po fields size
                onComplete onProgress onError h tr j ju link)
      as (h1 & h' & d & -> & _); try done.
    by repeat eexists.
  - destruct (replace_succeeds node this file videoUri p po fields size
                onComplete onProgress onError h tr j ju link)
      as (h1 & h' & d & -> & _); try done.
    by repeat eexists.
Qed.

(** C5: the POST of [replace] carries [file_name], the base name of the
    path or the [name] of the file-like object; and when the declaration is
    answered with an upload link, the success callback of the returned
    handle calls the completion callback with [videoUri]. *)
Theorem replace_names_file_and_completes node this file videoUri p po fields
    size onComplete onProgress onError s :
  st_heap s !! p = Some po → o_call po = None →
  descriptor (st_heap s) p fields →
  resolved_size node (st_heap s) file = Some size →
  let run := replace node this file videoUri (VRef p)
               onComplete onProgress onError s in
  (∃ snapshot rest,
     st_trace (final_state run)
     = st_trace s ++ EvAxiosPost (videoUri +:+ "/versions?fields=upload")
                       (VRef p) snapshot (ro_headers (_requestOptions this))
                     :: rest
     ∧ Forall not_a_post rest
     ∧ prop snapshot (VRef p) "file_name"
       = match file with
         | VStr path => VStr (path_basename node path)
         | _ => prop (st_heap s) file "name"
         end)
  ∧ ∀ j ju link f,
      answered node (st_trace (final_state run)) j →
      json_field j "upload" = Some ju →
      json_field ju "upload_link" = Some (JStr link) →
      callable (st_heap s) onComplete = Some f →
      ∃ u s',
        run = Ok (RUpload u) s'
        ∧ tus_onSuccess u s'
          = Ok tt (St (st_heap s') (st_trace s' ++ [EvCall f [VStr videoUri]])).
Proof.
  destruct s as [h tr]. cbn [st_heap st_trace].
  intros Hp Hcall Hdesc Hsize. split.
  - destruct (replace_prefix node this file videoUri p po fields size
                onComplete onProgress onError h tr Hp Hcall Hdesc Hsize)
      as (h1 & u & Hrun & Hname & _).
    rewrite Hrun.
    destruct (try_post_trace not_a_post node
                (videoUri +:+ "/versions?fields=upload")
                (VRef p) (ro_headers (_requestOptions this))
                (λ data, set_prop data "uri" (VStr videoUri);;
                         u ← _performTusUpload file size data
                               onComplete onProgress onError;
                         mret (RUpload u))
                (initiate_failed onError) h1 tr) as (rest & Heq & Hrest).
    + intros v. apply emits_bind; [apply emits_set_prop|]. intros _.
      apply emits_bind; [by apply emits_performTusUpload|].
      intros ?. apply emits_ret.
    + intros e. by apply emits_initiate_failed.
    + by exists h1, rest.
  - intros j ju link f Hanswered Hupload Hlink Hf.
    destruct (replace_succeeds node this file videoUri p po fields size
                onComplete onProgress onError h tr j ju link)
      as (h1 & h' & d & Hrun & _ & Huri & Hcallable); try done.
    rewrite Hrun. eexists _, _. split; [done|].
    unfold tus_onSuccess. cbn [onSuccess tus_options_of sc_attempt
                               sc_completeCallback].
    erewrite bind_Ok by reflexivity. cbn [st_heap]. rewrite Huri.
    apply call_function. cbn [st_heap]. by rewrite Hcallable.
Qed.

Lemma typeof_new_object (h : heap) props :
  typeof (<[fresh (dom h) := Obj None props]> h) (VRef (fresh (dom h))) = TObject.
Proof. simpl. by rewrite heap_obj_insert, decide_True. Qed.

(** C4: a call that leaves [params] out, its second positional argument
    ([upload]) or third ([replace]) being a function, is the call with an
    empty [params] object and the callbacks one place further. *)
Theorem params_omitted node this file videoUri onComplete onProgress onError s :
  typeof (st_heap s) onComplete = TFunction →
  upload node this file onComplete onProgress onError VUndef s
  = (params ← new_object ∅;
     upload node this file params onComplete onProgress onError) s
  ∧ replace node this file videoUri onComplete onProgress onError VUndef s
    = (params ← new_object ∅;
       replace node this file videoUri params onComplete onProgress onError) s.
Proof.
  intros Hfun. split.
  - erewrite (bind_Ok (new_object ∅)) by reflexivity.
    unfold upload.
    erewrite bind_Ok
      by (rewrite shift_arguments_function by done; reflexivity).
    erewrite (bind_Ok (shift_arguments _ _ _ _)); cycle 1.
    { apply shift_arguments_object. cbn [st_heap].
      by rewrite typeof_new_object. }
    reflexivity.
  - erewrite (bind_Ok (new_object ∅)) by reflexivity.
    unfold replace.
    erewrite bind_Ok
      by (rewrite shift_arguments_function by done; reflexivity).
    erewrite (bind_Ok (shift_arguments _ _ _ _)); cycle 1.
    { apply shift_arguments_object. cbn [st_heap].
      by rewrite typeof_new_object. }
    reflexivity.
Qed.

(** ** Headers of the intent declaration *)

Lemma requestOptions_setAccessToken tokens this :
  _requestOptions (fold_left setAccessToken tokens this) = _requestOptions this.
Proof.
  revert this. induction tokens as [|t tokens IH]; intros this; simpl; [done|].
  by rewrite IH.
Qed.

Lemma emits_sized (P : event → Prop) node file ec :
  (∀ id args, P (EvCall id args)) →
  emits P (match file with
           | VStr path =>
               match fs_statSync_size node path with
               | Some size => mret (Continue (VNum size))
               | None =>
                   call "errorCallback" ec
                        [VStr "Unable to locate file to upload."];;
                   mret (Return RNull)
               end
           | _ => size ← get_prop file "size"; mret (Continue size)
           end).
Proof.
  intros HP.
  assert (emits P (size ← get_prop file "size"; mret (Continue size))) as Hobj.
  { apply emits_bind; [apply emits_get_prop|]. intros ?. apply emits_ret. }
  destruct file as [| | | |path|]; try apply Hobj.
  destruct (fs_statSync_size node path); [apply emits_ret|].
  apply emits_bind; [by apply emits_call|]. intros _. apply emits_ret.
Qed.

Lemma emits_upload (P : event → Prop) node this file params cc pc ec :
  (∀ id args, P (EvCall id args)) →
  (∀ path, P (EvCreateReadStream path)) →
  (∀ url data h, P (EvAxiosPost url data h (ro_headers (_requestOptions this)))) →
  emits P (upload node this file params cc pc ec).
Proof.
  intros Hcall Hstream Hpost. unfold upload.
  apply emits_bind; [apply emits_shift_arguments|].
  intros [[[params' cc'] pc'] ec'].
  apply emits_bind; [by apply emits_sized|].
  intros [r|size]; [apply emits_ret|].
  apply emits_bind; [apply emits_override_upload|]. intros _.
  apply emits_try_catch; [|intros e; by apply emits_initiate_failed].
  apply emits_bind; [by apply emits_await_Axios_post|]. intros data.
  apply emits_bind; [by apply emits_performTusUpload|]. intros u.
  apply emits_ret.
Qed.

Lemma emits_replace (P : event → Prop) node this file videoUri params cc pc ec :
  (∀ id args, P (EvCall id args)) →
  (∀ path, P (EvCreateReadStream path)) →
  (∀ url data h, P (EvAxiosPost url data h (ro_headers (_requestOptions this)))) →
  emits P (replace node this file videoUri params cc pc ec).
Proof.
  intros Hcall Hstream Hpost. unfold replace.
  apply emits_bind; [apply emits_shift_arguments|].
  intros [[[params' cc'] pc'] ec'].
  apply emits_bind.
  { assert (emits P (size ← get_prop file "size";
                     name ← get_prop file "name";
                     set_prop params' "file_name" name;;
                     mret (Continue size))) as Hobj.
    { apply emits_bind; [apply emits_get_prop|]. intros ?.
      apply emits_bind; [apply emits_get_prop|]. intros ?.
      apply emits_bind; [apply emits_set_prop|]. intros _. apply emits_ret. }
    destruct file as [| | | |path|]; try apply Hobj.
    destruct (fs_statSync_size node path).
    - apply emits_bind; [apply emits_set_prop|]. intros _. apply emits_ret.
    - apply emits_bind; [by apply emits_call|]. intros _. apply emits_ret. }
  intros [r|size]; [apply emits_ret|].
  apply emits_bind; [apply emits_override_upload|]. intros _.
  apply emits_try_catch; [|intros e; by apply emits_initiate_failed].
  apply emits_bind; [by apply emits_await_Axios_post|]. intros data.
  apply emits_bind; [apply emits_set_prop|]. intros _.
  apply emits_bind; [by apply emits_performTusUpload|]. intros u.
  apply emits_ret.
Qed.

Lemma post_headers_app tr tr' :
  post_headers (tr ++ tr') = post_headers tr ++ post_headers tr'.
Proof. apply omap_app. Qed.

Lemma post_headers_not_a_post rest :
  Forall not_a_post rest → post_headers rest = [].
Proof.
  induction 1 as [|e rest He _ IH]; [done|].
  destruct e; simpl in *; done.
Qed.

Lemma post_headers_one tr url data h headers rest :
  Forall not_a_post rest →
  post_headers (tr ++ EvAxiosPost url data h headers :: rest)
  = post_headers tr ++ [headers].
Proof.
  intros Hrest. rewrite post_headers_app. f_equal.
  change (post_headers (EvAxiosPost url data h headers :: rest))
    with (headers :: post_headers rest).
  by rewrite post_headers_not_a_post.
Qed.

(** C10: for every client, whatever its credentials and however often its
    token was set, every POST that [upload] and [replace] send carries the
    default headers, [Accept] and [User-Agent], and so neither
    [Authorization] nor [Content-Type]; and when the file size resolves and
    [params] is an object, exactly one such POST is sent. *)
Theorem intent_declaration_headers node clientId clientSecret accessToken tokens
    file videoUri params onComplete onProgress onError :
  let this := fold_left setAccessToken tokens
                (constructor clientId clientSecret accessToken) in
  (map fst default_headers = ["Accept"; "User-Agent"]
   ∧ header default_headers "Authorization" = None
   ∧ header default_headers "Content-Type" = None)
  ∧ emits sends_default_headers
      (upload node this file params onComplete onProgress onError)
  ∧ emits sends_default_headers
      (replace node this file videoUri params onComplete onProgress onError)
  ∧ ∀ p po fields size s,
      params = VRef p → st_heap s !! p = Some po → o_call po = None →
      descriptor (st_heap s) p fields →
      resolved_size node (st_heap s) file = Some size →
      post_headers (st_trace (final_state
        (upload node this file params onComplete onProgress onError s)))
      = post_headers (st_trace s) ++ [default_headers]
      ∧ post_headers (st_trace (final_state
          (replace node this file videoUri params onComplete onProgress onError s)))
        = post_headers (st_trace s) ++ [default_headers].
Proof.
  intros this.
  assert (ro_headers (_requestOptions this) = default_headers) as Hheaders.
  { unfold this. by rewrite requestOptions_setAccessToken. }
  split; [done|]. split; [|split].
  - by apply emits_upload.
  - by apply emits_replace.
  - intros p po fields size [h tr] -> Hp Hcall Hdesc Hsize.
    cbn [st_heap st_trace] in *. split.
    + destruct (upload_prefix node this file p po fields size
                  onComplete onProgress onError h tr Hp Hcall Hdesc Hsize)
        as (h1 & u & -> & _).
      destruct (try_post_trace not_a_post node "/me/videos?field=uri,name,upload"
                  (VRef p) (ro_headers (_requestOptions this))
                  (λ data, u ← _performTusUpload file size data
                                 onComplete onProgress onError;
                           mret (RUpload u))
                  (initiate_failed onError) h1 tr) as (rest & -> & Hrest).
      * intros v. apply emits_bind; [by apply emits_performTusUpload|].
        intros ?. apply emits_ret.
      * intros e. by apply emits_initiate_failed.
      * by rewrite post_headers_one, Hheaders.
    + destruct (replace_prefix node this file videoUri p po fields size
                  onComplete onProgress onError h tr Hp Hcall Hdesc Hsize)
        as (h1 & u & -> & _).
      destruct (try_post_trace not_a_post node
                  (videoUri +:+ "/versions?fields=upload")
                  (VRef p) (ro_headers (_requestOptions this))
                  (λ data, set_prop data "uri" (VStr videoUri);;
                           u ← _performTusUpload file size data
                                 onComplete onProgress onError;
                           mret (RUpload u))
                  (initiate_failed onError) h1 tr) as (rest & -> & Hrest).
      * intros v. apply emits_bind; [apply emits_set_prop|]. intros _.
        apply emits_bind; [by apply emits_performTusUpload|].
        intros ?. apply emits_ret.
      * intros e. by apply emits_initiate_failed.
      * by rewrite post_headers_one, Hheaders.
Qed.

(** ** Requests *)

Lemma returns_ret {A} (Q : A → Prop) a : Q a → returns Q (mret a).
Proof. intros Ha s a' s' [= <- _]. done. Qed.

Lemma returns_throw {A} (Q : A → Prop) e : returns Q (throw e).
Proof. intros s a s'. discriminate. Qed.

Lemma returns_bind {A B} (P : A → Prop) (Q : B → Prop) (m : M A) (f : A → M B) :
  returns P m → (∀ a, P a → returns Q (f a)) → returns Q (m ≫= f).
Proof.
  intros Hm Hf s b s'. unfold mbind, M_bind.
  destruct (m s) as [a s1|e s1] eqn:Hms; [|discriminate].
  apply Hf. by eapply Hm.
Qed.

Lemma returns_any {A} (m : M A) : returns (λ _, True) m.
Proof. by intros s a s'. Qed.

Lemma returns_try_catch {A} (Q : A → Prop) (body : M A) handler :
  returns Q body → (∀ e, returns Q (handler e)) →
  returns Q (try_catch body handler).
Proof.
  intros Hbody Hhandler s a s'. unfold try_catch.
  destruct (body s) as [a1 s1|e s1] eqn:Hbs.
  - intros [= <- _]. by eapply Hbody.
  - apply Hhandler.
Qed.

Lemma returns_initiate_failed ec e : returns not_an_error (initiate_failed ec e).
Proof.
  apply returns_bind with (P := λ _, True); [apply returns_any|].
  intros _ _. by apply returns_ret.
Qed.

Lemma returns_upload node this file params cc pc ec :
  returns not_an_error (upload node this file params cc pc ec).
Proof.
  unfold upload. apply returns_bind with (P := λ _, True); [apply returns_any|].
  intros [[[params' cc'] pc'] ec'] _.
  apply returns_bind
    with (P := λ sized, match sized with Return r => not_an_error r | _ => True end).
  - destruct file as [| | | |path|];
      try (apply returns_bind with (P := λ _, True); [apply returns_any|];
           intros ? _; by apply returns_ret).
    destruct (fs_statSync_size node path); [by apply returns_ret|].
    apply returns_bind with (P := λ _, True); [apply returns_any|].
    intros ? _; by apply returns_ret.
  - intros [r|size] Hr; [by apply returns_ret|].
    apply returns_bind with (P := λ _, True); [apply returns_any|]. intros _ _.
    apply returns_try_catch; [|apply returns_initiate_failed].
    apply returns_bind with (P := λ _, True); [apply returns_any|]. intros data _.
    apply returns_bind with (P := λ _, True); [apply returns_any|]. intros u _.
    by apply returns_ret.
Qed.

Lemma returns_replace node this file videoUri params cc pc ec :
  returns not_an_error (replace node this file videoUri params cc pc ec).
Proof.
  unfold replace. apply returns_bind with (P := λ _, True); [apply returns_any|].
  intros [[[params' cc'] pc'] ec'] _.
  apply returns_bind
    with (P := λ sized, match sized with Return r => not_an_error r | _ => True end).
  - destruct file as [| | | |path|];
      try (apply returns_bind with (P := λ _, True); [apply returns_any|];
           intros ? _;
           apply returns_bind with (P := λ _, True); [apply returns_any|];
           intros ? _;
           apply returns_bind with (P := λ _, True); [apply returns_any|];
           intros ? _; by apply returns_ret).
    destruct (fs_statSync_size node path);
      (apply returns_bind with (P := λ _, True); [apply returns_any|]);
      intros ? _; by apply returns_ret.
  - intros [r|size] Hr; [by apply returns_ret|].
    apply returns_bind with (P := λ _, True); [apply returns_any|]. intros _ _.
    apply returns_try_catch; [|apply returns_initiate_failed].
    apply returns_bind with (P := λ _, True); [apply returns_any|]. intros data _.
    apply returns_bind with (P := λ _, True); [apply returns_any|]. intros _ _.
    apply returns_bind with (P := λ _, True); [apply returns_any|]. intros u _.
    by apply returns_ret.
Qed.

Lemma returns_post_data node url body headers :
  returns not_an_error
    (try_catch (data ← await_Axios_post node url body headers; mret (RValue data))
               (λ error, throw error)).
Proof.
  apply returns_try_catch; [|intros e; apply returns_throw].
  apply returns_bind with (P := λ _, True); [apply returns_any|].
  intros data _. by apply returns_ret.
Qed.

Lemma returns_accessToken node this code redirectUri :
  returns not_an_error (accessToken node this code redirectUri).
Proof.
  unfold accessToken. apply returns_bind with (P := λ _, True); [apply returns_any|].
  intros body _. apply returns_post_data.
Qed.

Lemma returns_generateClientCredentials node this scope :
  returns not_an_error (generateClientCredentials node this scope).
Proof.
  unfold generateClientCredentials.
  apply returns_bind with (P := λ _, True); [apply returns_any|].
  intros body _. apply returns_post_data.
Qed.

Lemma returns_request_sent node this options :
  returns not_an_error
    (requestOptions ← _buildRequestOptions this options;
     try_catch (data ← await_Axios node requestOptions; mret (RValue data))
               (λ error, throw error)).
Proof.
  apply returns_bind with (P := λ _, True); [apply returns_any|].
  intros requestOptions _.
  apply returns_try_catch; [|intros e; apply returns_throw].
  apply returns_bind with (P := λ _, True); [apply returns_any|].
  intros data _. by apply returns_ret.
Qed.

Lemma typeof_string h v : typeof h v = TString ↔ ∃ str, v = VStr str.
Proof.
  destruct v as [| | | | str | l]; simpl;
    try (split; [discriminate | intros [? [=]]]).
  - split; eauto.
  - destruct (o_call _); (split; [discriminate | intros [? [=]]]).
Qed.

Lemma bind_Ok_inv {A B} (m : M A) (f : A → M B) s b s' :
  (m ≫= f) s = Ok b s' → ∃ a s1, m s = Ok a s1 ∧ f a s1 = Ok b s'.
Proof.
  unfold mbind, M_bind. destruct (m s) as [a s1|e s1]; [|discriminate]. eauto.
Qed.

Lemma get_prop_Ok_inv v k s x s' :
  get_prop v k s = Ok x s' → x = prop (st_heap s) v k ∧ s' = s.
Proof. destruct v; simpl; intros [= <- <-] || discriminate; done. Qed.

Lemma request_inversion node this options s message s' :
  request node this options s = Ok (RError message) s' →
  message = "You must provide an API url" ∧ s' = s
  ∧ (∀ str, options ≠ VStr str)
  ∧ ∀ str, prop (st_heap s) options "url" ≠ VStr str.
Proof.
  unfold request. intros Hrun.
  apply bind_Ok_inv in Hrun as (h & s0 & [= <- <-] & Hrun).
  apply bind_Ok_inv in Hrun as ([] & s1 & Hmethod & Hrun).
  assert (s1 = s ∧ ∀ str, options ≠ VStr str) as [-> Hoptions].
  { destruct options as [| | b | n | str | o]; simpl in Hmethod;
      try destruct (o_call _); unfold mret, M_ret in Hmethod;
      try discriminate; by simplify_eq. }
  apply bind_Ok_inv in Hrun as (url & s2 & Hurl & Hrun).
  apply get_prop_Ok_inv in Hurl as [-> ->].
  apply bind_Ok_inv in Hrun as (h & s3 & [= <- <-] & Hrun).
  destruct (typeof (st_heap s) (prop (st_heap s) options "url")) eqn:Hty;
    try by apply returns_request_sent in Hrun.
  all: injection Hrun as <- <-; repeat split; try done.
  all: intros str Hstr;
       assert (typeof (st_heap s) (prop (st_heap s) options "url") = TString)
         as Hs by (apply typeof_string; eauto);
       congruence.
Qed.

(** C7: for an options object whose [url] is not a string, [request]
    settles with the [Error] value and leaves store and trace as they are,
    so no HTTP call is made; and this check is the only place where an
    [Error] is returned: whenever [request] returns one it is this one, and
    [upload], [replace], [accessToken] and [generateClientCredentials] never
    return one. *)
Theorem request_without_url node this o s :
  (∀ str, prop (st_heap s) (VRef o) "url" ≠ VStr str) →
  request node this (VRef o) s = Ok (RError "You must provide an API url") s
  ∧ (∀ options s0 message s',
       request node this options s0 = Ok (RError message) s' →
       message = "You must provide an API url" ∧ s' = s0
       ∧ ∀ str, prop (st_heap s0) options "url" ≠ VStr str)
  ∧ (∀ file videoUri params onComplete onProgress onError code redirectUri scope,
       returns not_an_error
         (upload node this file params onComplete onProgress onError)
       ∧ returns not_an_error
           (replace node this file videoUri params onComplete onProgress onError)
       ∧ returns not_an_error (accessToken node this code redirectUri)
       ∧ returns not_an_error (generateClientCredentials node this scope)).
Proof.
  intros Hurl. split; [|split].
  - unfold request. erewrite bind_Ok by reflexivity.
    erewrite bind_Ok; cycle 1.
    { simpl. by destruct (o_call _). }
    erewrite bind_Ok by reflexivity. erewrite bind_Ok by reflexivity.
    destruct (typeof _ _) eqn:Hty; try reflexivity.
    apply typeof_string in Hty as [str Hstr]. by destruct (Hurl str).
  - intros options s0 message s' Hrun.
    apply request_inversion in Hrun as (? & ? & _ & ?). done.
  - intros. split; [apply returns_upload|].
    split; [apply returns_replace|].
    split; [apply returns_accessToken|apply returns_generateClientCredentials].
Qed.

(** C6 does not hold for the code: [request] of a bare URL string raises a
    [TypeError] at [options.method = "GET"], in strict mode an assignment to
    a property of a primitive, before any request is built or sent. *)
Theorem request_of_url_string_throws node this url s :
  request node this (VStr url) s
  = Throw (TypeError ("Cannot create property 'method' on string '" +:+ url +:+ "'")) s.
Proof. reflexivity. Qed.

(** ** The request builder *)

Lemma prop_new_object (h : heap) l obj l' k :
  prop (<[l := obj]> h) (VRef l') k
  = if decide (l = l') then default VUndef (o_props obj !! k)
    else prop h (VRef l') k.
Proof. simpl. rewrite heap_obj_insert. by destruct (decide (l = l')). Qed.

Lemma header_write ro hd k x h tr :
  prop h (VRef ro) "headers" = VRef hd →
  (headers ← get_prop (VRef ro) "headers"; set_prop headers k x) (St h tr)
  = Ok tt (St (store_prop h hd k x) tr).
Proof.
  intros Hheaders. erewrite bind_Ok by reflexivity.
  cbn [st_heap]. by rewrite Hheaders.
Qed.

Lemma apply_default_headers_run ro hd tr defaults :
  hd ≠ ro →
  ∀ h, prop h (VRef ro) "headers" = VRef hd →
  ∃ h',
    apply_default_headers (VRef ro) defaults (St h tr) = Ok tt (St h' tr)
    ∧ (∀ k, prop h' (VRef ro) k = prop h (VRef ro) k)
    ∧ (∀ k, k ∉ map fst defaults → prop h' (VRef hd) k = prop h (VRef hd) k).
Proof.
  intros Hne. induction defaults as [|[key value] defaults IH]; intros h Hheaders.
  - by exists h.
  - simpl apply_default_headers.
    set (h1 := if negb (truthy (prop h (VRef hd) key))
               then store_prop h hd key (VStr value) else h).
    assert (∀ k, prop h1 (VRef ro) k = prop h (VRef ro) k) as Hro.
    { intros k. unfold h1. destruct (negb _); [|done].
      by rewrite prop_store_prop, decide_False by (intros [? ?]; done). }
    destruct (IH h1) as (h' & Hrun & Hro' & Hhd'); [by rewrite Hro|].
    exists h'. split; [|split].
    + erewrite bind_Ok by reflexivity. cbn [st_heap]. rewrite Hheaders.
      erewrite bind_Ok by reflexivity. cbn [st_heap].
      erewrite bind_Ok; [exact Hrun|].
      unfold h1. destruct (negb _); [|done].
      by apply header_write.
    + intros k. by rewrite Hro', Hro.
    + intros k Hk. simpl in Hk. apply not_elem_of_cons in Hk as [Hkey Hk].
      rewrite Hhd' by done.
      unfold h1. destruct (negb _); [|done].
      rewrite prop_store_prop, decide_False; [done|].
      by intros [_ ->].
Qed.

Lemma forms_differ token basicToken :
  "Bearer " +:+ token ≠ "Basic " +:+ basicToken.
Proof. discriminate. Qed.

(** C8 (as amended): the built options carry [Authorization: Bearer token]
    when a token is present; otherwise [Authorization: Basic id:secret],
    the two strings joined as they are, when both the client id and the
    client secret are present; otherwise the builder attaches neither form
    and [Authorization] is what the caller's headers held.  At most one of
    the two forms is attached. *)
Theorem authorization_header this o oo s :
  st_heap s !! o = Some oo →
  ro_headers (_requestOptions this) = default_headers →
  truthy (prop (st_heap s) (VRef o) "headers") = false
  ∨ (∃ hd, prop (st_heap s) (VRef o) "headers" = VRef hd
           ∧ is_Some (st_heap s !! hd)) →
  ∃ requestOptions headers s',
    _buildRequestOptions this (VRef o) s = Ok (VRef requestOptions) s'
    ∧ prop (st_heap s') (VRef requestOptions) "headers" = VRef headers
    ∧ prop (st_heap s') (VRef headers) "Authorization"
      = if present (_accessToken this)
        then VStr ("Bearer " +:+ default "" (_accessToken this))
        else if present (_clientId this) && present (_clientSecret this)
        then VStr ("Basic " +:+ default "" (_clientId this) +:+ ":" +:+
                   default "" (_clientSecret this))
        else prop (st_heap s) (prop (st_heap s) (VRef o) "headers") "Authorization".
Proof.
  destruct s as [h tr]. cbn [st_heap]. intros Ho Hdefaults Hheaders.
  pose proof (fresh_lookup h) as Hfresh.
  set (ro := fresh (dom h)) in *.
  assert (ro ≠ o) as Hro by (intros ->; congruence).
  set (h1 := <[ro := Obj None (o_props (heap_obj h o))]> h).
  set (m := prop h1 (VRef o) "method").
  set (h2 := store_prop h1 ro "method" (if truthy m then m else VStr "GET")).
  assert (prop h2 (VRef o) "headers" = prop h (VRef o) "headers") as Hh2.
  { unfold h2, h1.
    rewrite prop_store_prop, decide_False by (intros [? ?]; done).
    by rewrite prop_new_object, decide_False. }
  assert (∃ hd h3,
    (if truthy (prop h (VRef o) "headers")
     then mret (prop h (VRef o) "headers") else new_object ∅) (St h2 tr)
    = Ok (VRef hd) (St h3 tr)
    ∧ hd ≠ ro
    ∧ (∀ k, prop h3 (VRef ro) k = prop h2 (VRef ro) k)
    ∧ prop h3 (VRef hd) "Authorization"
      = prop h (prop h (VRef o) "headers") "Authorization")
    as (hd & h3 & Hstep & Hhd & Hro3 & Hauth3).
  { assert (is_Some (h2 !! ro)) as Hro2.
    { apply store_prop_is_Some. unfold h1. rewrite lookup_insert_eq. by eexists. }
    destruct Hheaders as [Hfalsy | (hd & Hgiven & [ohd Hhd])].
    - pose proof (fresh_lookup h2) as Hfresh2.
      set (hd := fresh (dom h2)) in *.
      assert (hd ≠ ro) as Hne.
      { intros Heq. rewrite Heq in Hfresh2. rewrite Hfresh2 in Hro2.
        by destruct Hro2. }
      exists hd, (<[hd := Obj None ∅]> h2).
      split; [|split; [done|split]].
      + by rewrite Hfalsy.
      + intros k. by rewrite prop_new_object, decide_False.
      + rewrite prop_new_object, decide_True by done.
        by destruct (prop h (VRef o) "headers").
    - assert (hd ≠ ro) as Hne by (intros ->; congruence).
      exists hd, h2. split; [|split; [done|split; [done|]]].
      + by rewrite Hgiven.
      + rewrite Hgiven. unfold h2, h1.
        rewrite prop_store_prop, decide_False by (intros [? ?]; done).
        by rewrite prop_new_object, decide_False. }
  set (h4 := store_prop h3 ro "headers" (VRef hd)).
  set (d := prop h4 (VRef o) "data").
  set (h5 := store_prop h4 ro "data" d).
  assert (prop h5 (VRef ro) "headers" = VRef hd) as Hinv5.
  { unfold h5, h4.
    rewrite prop_store_prop, decide_False by (intros [? ?]; done).
    by rewrite prop_store_prop, decide_True. }
  assert (prop h5 (VRef hd) "Authorization"
          = prop h (prop h (VRef o) "headers") "Authorization") as Hauth5.
  { unfold h5, h4.
    by rewrite !prop_store_prop, !decide_False by (intros [? ?]; done). }
  destruct (apply_default_headers_run ro hd tr default_headers Hhd h5 Hinv5)
    as (h6 & Hdefaults_run & Hro6 & Hhd6).
  assert (prop h6 (VRef ro) "headers" = VRef hd) as Hinv6 by by rewrite Hro6.
  set (auth := if present (_accessToken this)
        then VStr ("Bearer " +:+ default "" (_accessToken this))
        else if present (_clientId this) && present (_clientSecret this)
        then VStr ("Basic " +:+ default "" (_clientId this) +:+ ":" +:+
                   default "" (_clientSecret this))
        else prop h (prop h (VRef o) "headers") "Authorization").
  set (h7 := if present (_accessToken this) then store_prop h6 hd "Authorization" auth
             else if present (_clientId this) && present (_clientSecret this)
             then store_prop h6 hd "Authorization" auth else h6).
  assert (prop h7 (VRef ro) "headers" = VRef hd
          ∧ prop h7 (VRef hd) "Authorization" = auth) as [Hinv7 Hauth7].
  { unfold h7, auth.
    destruct (present (_accessToken this));
      [|destruct (present (_clientId this) && present (_clientSecret this))].
    - split.
      + by rewrite prop_store_prop, decide_False by (intros [? ?]; done).
      + by rewrite prop_store_prop, decide_True.
    - split.
      + by rewrite prop_store_prop, decide_False by (intros [? ?]; done).
      + by rewrite prop_store_prop, decide_True.
    - split; [done|]. rewrite Hhd6, Hauth5; [done|].
      unfold default_headers. simpl.
      rewrite !not_elem_of_cons. repeat split; try done. apply not_elem_of_nil. }
  set (method := prop h7 (VRef ro) "method").
  set (h8 := if has_body method
             then if negb (truthy (prop h7 (VRef hd) "Content-Type"))
                  then store_prop h7 hd "Content-Type" (VStr "application/json")
                  else h7
             else h7).
  exists ro, hd, (St h8 tr). split; [|split].
  - unfold _buildRequestOptions.
    erewrite bind_Ok by reflexivity. erewrite bind_Ok by reflexivity.
    cbn [st_heap st_trace spread]. fold ro. fold h1.
    erewrite bind_Ok by reflexivity. cbn [st_heap]. fold m.
    erewrite bind_Ok by reflexivity. cbn [st_heap st_trace]. fold h2.
    erewrite bind_Ok by reflexivity. cbn [st_heap]. rewrite Hh2.
    erewrite bind_Ok by exact Hstep.
    erewrite bind_Ok by reflexivity. cbn [st_heap st_trace]. fold h4.
    erewrite bind_Ok by reflexivity. cbn [st_heap]. fold d.
    erewrite bind_Ok by reflexivity. cbn [st_heap st_trace]. fold h5.
    rewrite Hdefaults.
    erewrite bind_Ok by exact Hdefaults_run.
    erewrite bind_Ok; cycle 1.
    { instantiate (1 := St h7 tr). instantiate (1 := tt). unfold h7.
      destruct (present (_accessToken this));
        [|destruct (present (_clientId this) && present (_clientSecret this))];
        try done; by apply header_write. }
    erewrite bind_Ok by reflexivity. cbn [st_heap]. fold method.
    erewrite bind_Ok; [reflexivity|].
    unfold h8. destruct (has_body method); [|done].
    erewrite bind_Ok by reflexivity. cbn [st_heap]. rewrite Hinv7.
    erewrite bind_Ok by reflexivity. cbn [st_heap].
    destruct (negb _); [|done]. by apply header_write.
  - cbn [st_heap]. unfold h8.
    destruct (has_body method); [|done]. destruct (negb _); [|done].
    by rewrite prop_store_prop, decide_False by (intros [? ?]; done).
  - cbn [st_heap]. fold auth. unfold h8.
    destruct (has_body method); [|done]. destruct (negb _); [|done].
    by rewrite prop_store_prop, decide_False by (intros [? ?]; done).
Qed.

(** C8, as stated, fails for a client without a secret and without a token:
    the built options carry no [Authorization] header, neither form. *)
Lemma no_secret_no_authorization :
  match _buildRequestOptions (constructor (Some "client-id") None None)
                             (VRef 9%positive) sample_state with
  | Ok requestOptions s' =>
      prop (st_heap s') (prop (st_heap s') requestOptions "headers")
           "Authorization" = VUndef
  | Throw _ _ => False
  end.
Proof. vm_compute. reflexivity. Qed.

(** The explicit form [request({url: "/me", method: "GET"})], for
    comparison: the request is built and handed to Axios. *)
Lemma request_of_options_object_is_sent :
  match request sample_platform sample_client (VRef 9%positive) sample_state with
  | Ok (RValue _) s' =>
      ∃ config snapshot, st_trace s' = [EvAxios config snapshot]
  | _ => False
  end.
Proof. vm_compute. by eexists _, _. Qed.

(** ** The theorems at a concrete store *)

Lemma upload_missing_file_witness :
  upload sample_platform sample_client (VStr "/home/me/gone.mp4")
         (VRef 4%positive) (VRef 1%positive) (VRef 2%positive) (VRef 3%positive)
         sample_state
  = Ok RNull (St sample_heap
                 [EvCall 3 [VStr "Unable to locate file to upload."]])
  ∧ Forall (λ e, is_http e = false)
           [EvCall 3 [VStr "Unable to locate file to upload."]].
Proof.
  apply (upload_missing_file sample_platform sample_client "/home/me/gone.mp4"
           (VRef 4%positive) (VRef 1%positive) (VRef 2%positive)
           (VRef 3%positive) sample_state 3%nat).
  - reflexivity.
  - vm_compute. discriminate.
  - reflexivity.
Defined.

Lemma upload_descriptor_forced_witness :
  ∃ u,
    let s' := final_state
      (upload sample_platform sample_client (VStr "/home/me/clip.mp4")
         (VRef 5%positive) (VRef 1%positive) (VRef 2%positive) (VRef 3%positive)
         sample_state) in
    prop (st_heap s') (VRef 5%positive) "upload" = VRef u
    ∧ prop (st_heap s') (VRef u) "approach" = VStr "tus"
    ∧ prop (st_heap s') (VRef u) "size" = VNum 1048576
    ∧ (∀ k, k ≠ "approach" → k ≠ "size" →
         o_props (heap_obj (st_heap s') u) !! k = o_props sample_descriptor !! k)
    ∧ (∀ u0, prop sample_heap (VRef 5%positive) "upload" = VRef u0 → u = u0).
Proof.
  apply (upload_descriptor_forced sample_platform sample_client
           (VStr "/home/me/clip.mp4") "/videos/76979871" 5%positive
           sample_params (o_props sample_descriptor) (VNum 1048576)
           (VRef 1%positive) (VRef 2%positive) (VRef 3%positive) sample_state).
  - reflexivity.
  - reflexivity.
  - apply (descriptor_given _ _ 6%positive sample_descriptor);
      [reflexivity | reflexivity | discriminate].
  - reflexivity.
  - left. reflexivity.
Defined.

Lemma handle_of_declared_upload_witness :
  ∃ u s' url snapshot headers,
    upload sample_platform sample_client (VStr "/home/me/clip.mp4")
      (VRef 5%positive) (VRef 1%positive) (VRef 2%positive) (VRef 3%positive)
      sample_state = Ok (RUpload u) s'
    ∧ tus_url u = VStr sample_link
    ∧ uploadSize (tus_options_of u) = VNum 1048576
    ∧ retryDelays (tus_options_of u) = [0; 1000; 3000; 5000]
    ∧ tus_started u = false
    ∧ st_trace s' = [] ++ EvAxiosPost url (VRef 5%positive) snapshot headers
                          :: [EvCreateReadStream "/home/me/clip.mp4"].
Proof.
  apply (handle_of_declared_upload sample_platform sample_client
           (VStr "/home/me/clip.mp4") "/videos/76979871" 5%positive
           sample_params (o_props sample_descriptor) (VNum 1048576)
           (VRef 1%positive) (VRef 2%positive) (VRef 3%positive) sample_state
           sample_response sample_attempt sample_link
           (upload sample_platform sample_client (VStr "/home/me/clip.mp4")
              (VRef 5%positive) (VRef 1%positive) (VRef 2%positive)
              (VRef 3%positive))).
  - reflexivity.
  - reflexivity.
  - apply (descriptor_given _ _ 6%positive sample_descriptor);
      [reflexivity | reflexivity | discriminate].
  - reflexivity.
  - left. reflexivity.
  - intros url data snapshot headers _. reflexivity.
  - reflexivity.
  - reflexivity.
Defined.

Lemma params_omitted_witness :
  upload sample_platform sample_client (VRef 7%positive)
    (VRef 1%positive) (VRef 2%positive) (VRef 3%positive) VUndef sample_state
  = (params ← new_object ∅;
     upload sample_platform sample_client (VRef 7%positive) params
       (VRef 1%positive) (VRef 2%positive) (VRef 3%positive)) sample_state
  ∧ replace sample_platform sample_client (VRef 7%positive) "/videos/76979871"
      (VRef 1%positive) (VRef 2%positive) (VRef 3%positive) VUndef sample_state
    = (params ← new_object ∅;
       replace sample_platform sample_client (VRef 7%positive)
         "/videos/76979871" params
         (VRef 1%positive) (VRef 2%positive) (VRef 3%positive)) sample_state.
Proof.
  apply (params_omitted sample_platform sample_client (VRef 7%positive)
           "/videos/76979871" (VRef 1%positive) (VRef 2%positive)
           (VRef 3%positive) sample_state).
  reflexivity.
Defined.

Lemma replace_names_file_and_completes_witness :
  let run := replace sample_platform sample_client (VStr "/home/me/clip.mp4")
               "/videos/76979871" (VRef 5%positive)
               (VRef 1%positive) (VRef 2%positive) (VRef 3%positive)
               sample_state in
  (∃ snapshot rest,
     st_trace (final_state run)
     = [] ++ EvAxiosPost ("/videos/76979871" +:+ "/versions?fields=upload")
               (VRef 5%positive) snapshot
               (ro_headers (_requestOptions sample_client))
             :: rest
     ∧ Forall not_a_post rest
     ∧ prop snapshot (VRef 5%positive) "file_name" = VStr "clip.mp4")
  ∧ ∀ j ju link f,
      answered sample_platform (st_trace (final_state run)) j →
      json_field j "upload" = Some ju →
      json_field ju "upload_link" = Some (JStr link) →
      callable sample_heap (VRef 1%positive) = Some f →
      ∃ u s',
        run = Ok (RUpload u) s'
        ∧ tus_onSuccess u s'
          = Ok tt (St (st_heap s')
                      (st_trace s' ++ [EvCall f [VStr "/videos/76979871"]])).
Proof.
  apply (replace_names_file_and_completes sample_platform sample_client
           (VStr "/home/me/clip.mp4") "/videos/76979871" 5%positive
           sample_params (o_props sample_descriptor) (VNum 1048576)
           (VRef 1%positive) (VRef 2%positive) (VRef 3%positive) sample_state).
  - reflexivity.
  - reflexivity.
  - apply (descriptor_given _ _ 6%positive sample_descriptor);
      [reflexivity | reflexivity | discriminate].
  - reflexivity.
Defined.

Lemma request_without_url_witness :
  request sample_platform sample_client (VRef 8%positive) sample_state
  = Ok (RError "You must provide an API url") sample_state.
Proof.
  apply (request_without_url sample_platform sample_client 8%positive
           sample_state).
  intros str. vm_compute. discriminate.
Defined.

Lemma authorization_header_witness :
  ∃ requestOptions headers s',
    _buildRequestOptions sample_client (VRef 9%positive) sample_state
    = Ok (VRef requestOptions) s'
    ∧ prop (st_heap s') (VRef requestOptions) "headers" = VRef headers
    ∧ prop (st_heap s') (VRef headers) "Authorization"
      = VStr "Basic client-id:client-secret".
Proof.
  apply (authorization_header sample_client 9%positive sample_options
           sample_state).
  - reflexivity.
  - reflexivity.
  - left. reflexivity.
Defined.

Lemma intent_declaration_headers_witness :
  post_headers (st_trace (final_state
    (upload sample_platform sample_client (VStr "/home/me/clip.mp4")
       (VRef 5%positive) (VRef 1%positive) (VRef 2%positive) (VRef 3%positive)
       sample_state)))
  = [default_headers]
  ∧ post_headers (st_trace (final_state
      (replace sample_platform sample_client (VStr "/home/me/clip.mp4")
         "/videos/76979871" (VRef 5%positive)
         (VRef 1%positive) (VRef 2%positive) (VRef 3%positive) sample_state)))
    = [default_headers].
Proof.
  apply (proj2 (proj2 (proj2
           (intent_declaration_headers sample_platform
              (Some "client-id") (Some "client-secret") None []
              (VStr "/home/me/clip.mp4") "/videos/76979871" (VRef 5%positive)
              (VRef 1%positive) (VRef 2%positive) (VRef 3%positive))))
           5%positive sample_params (o_props sample_descriptor)
           (VNum 1048576) sample_state).
  - reflexivity.
  - reflexivity.
  - reflexivity.
  - apply (descriptor_given _ _ 6%positive sample_descriptor);
      [reflexivity | reflexivity | discriminate].
  - reflexivity.
Defined.

(** * Further properties *)

(** ** A rejected or unusable intent declaration *)

Lemma upload_post_in_trace node this file size p cc pc ec h1 tr :
  In (EvAxiosPost "/me/videos?field=uri,name,upload" (VRef p) h1
        (ro_headers (_requestOptions this)))
     (st_trace (final_state
        (try_catch
           (data ← await_Axios_post node "/me/videos?field=uri,name,upload"
                     (VRef p) (ro_headers (_requestOptions this));
            u ← _performTusUpload file size data cc pc ec;
            mret (RUpload u))
           (initiate_failed ec) (St h1 tr)))).
Proof.
  destruct (try_post_trace (λ _, True) node "/me/videos?field=uri,name,upload"
              (VRef p) (ro_headers (_requestOptions this))
              (λ data, u ← _performTusUpload file size data cc pc ec;
                       mret (RUpload u))
              (initiate_failed ec) h1 tr) as (rest & Heq & _).
  - intros v. apply emits_bind; [by apply emits_performTusUpload|].
    intros ?. apply emits_ret.
  - intros e. by apply emits_initiate_failed.
  - rewrite Heq. apply in_elt.
Qed.

Lemma replace_post_in_trace node this file videoUri size p cc pc ec h1 tr :
  In (EvAxiosPost (videoUri +:+ "/versions?fields=upload") (VRef p) h1
        (ro_headers (_requestOptions this)))
     (st_trace (final_state
        (try_catch
           (data ← await_Axios_post node (videoUri +:+ "/versions?fields=upload")
                     (VRef p) (ro_headers (_requestOptions this));
            set_prop data "uri" (VStr videoUri);;
            u ← _performTusUpload file size data cc pc ec;
            mret (RUpload u))
           (initiate_failed ec) (St h1 tr)))).
Proof.
  destruct (try_post_trace (λ _, True) node
              (videoUri +:+ "/versions?fields=upload")
              (VRef p) (ro_headers (_requestOptions this))
              (λ data, set_prop data "uri" (VStr videoUri);;
                       u ← _performTusUpload file size data cc pc ec;
                       mret (RUpload u))
              (initiate_failed ec) h1 tr) as (rest & Heq & _).
  - intros v. apply emits_bind; [apply emits_set_prop|]. intros _.
    apply emits_bind; [by apply emits_performTusUpload|].
    intros ?. apply emits_ret.
  - intros e. by apply emits_initiate_failed.
  - rewrite Heq. apply in_elt.
Qed.

Lemma initiate_failed_run ec e f h tr :
  callable h ec = Some f →
  initiate_failed ec e (St h tr)
  = Ok RNull
      (St h (tr ++ [EvCall f [VStr ("Unable to initiate an upload. [" +:+
                                    error_to_string e +:+ "]")]])).
Proof.
  intros Hf. unfold initiate_failed.
  by erewrite bind_Ok by (by apply call_function).
Qed.



Lemma last_field_found k fields j : last_field k fields (Some j) ≠ None.
Proof.
  revert j. induction fields as [|[k' j'] fields IH]; intros j; simpl; [done|].
  destruct (String.eqb k' k); apply IH.
Qed.

Lemma alloc_fields_lookup_none k fields :
  ∀ props h,
    props !! k = None → last_field k fields None = None →
    (alloc_fields alloc_json fields props h).1 !! k = None.
Proof.
  induction fields as [|[k' j] fields IH]; simpl; intros props h Hnone Hlast.
  - done.
  - destruct (alloc_json j h) as [v h1].
    destruct (String.eqb_spec k' k) as [->|Hne].
    + by apply last_field_found in Hlast.
    + apply IH; [|done]. by rewrite lookup_insert_ne.
Qed.

Lemma alloc_json_field_none fields h k :
  json_field (JObj fields) k = None →
  ∃ d, (alloc_json (JObj fields) h).1 = VRef d
       ∧ prop (alloc_json (JObj fields) h).2 (VRef d) k = VUndef.
Proof.
  simpl. intros Hnone.
  pose proof (alloc_fields_lookup_none k fields ∅ h (lookup_empty k) Hnone)
    as Hlookup.
  destruct (alloc_fields alloc_json fields ∅ h) as [props h1]. simpl in *.
  exists (fresh (dom h1)). split; [done|].
  rewrite heap_obj_insert, decide_True by done. simpl. by rewrite Hlookup.
Qed.

Lemma performTusUpload_without_upload file size d cc pc ec h tr :
  prop h (VRef d) "upload" = VUndef →
  _performTusUpload file size (VRef d) cc pc ec (St h tr)
  = Throw (TypeError "Cannot read properties of undefined (reading 'upload_link')")
          (St h (tr ++ stream_events file)).
Proof.
  intros Hupload. unfold _performTusUpload.
  assert (∀ A (k : tus_source → M A),
    (src ← match file with
           | VStr path => emit (EvCreateReadStream path);; mret (SrcStream path)
           | _ => mret (SrcValue file)
           end; k src) (St h tr)
    = k (tus_source_of file) (St h (tr ++ stream_events file))) as Hsrc.
  { intros A k. destruct file; simpl; by rewrite ?app_nil_r. }
  rewrite Hsrc. erewrite bind_Ok by reflexivity.
  cbn [st_heap]. rewrite Hupload. reflexivity.
Qed.

(** X2: when the service answers with an object that has no [upload]
    field, the [TypeError] raised in [_performTusUpload] is caught and
    reported through [onError] like a failed declaration, and the result is
    [null]; for a path the read stream has been opened by then. *)
Theorem response_without_upload node this file videoUri p po fields size
    onComplete onProgress onError s body f run :
  st_heap s !! p = Some po → o_call po = None →
  descriptor (st_heap s) p fields →
  resolved_size node (st_heap s) file = Some size →
  run = upload node this file (VRef p) onComplete onProgress onError
  ∨ run = replace node this file videoUri (VRef p) onComplete onProgress onError →
  answered node (st_trace (final_state (run s))) (JObj body) →
  json_field (JObj body) "upload" = None →
  callable (st_heap s) onError = Some f →
  ∃ s' url snapshot headers,
    run s = Ok RNull s'
    ∧ st_trace s'
      = st_trace s ++
        EvAxiosPost url (VRef p) snapshot headers
        :: stream_events file ++
        [EvCall f [VStr "Unable to initiate an upload. [TypeError: Cannot read properties of undefined (reading 'upload_link')]"]].
Proof.
  destruct s as [h tr]. cbn [st_heap st_trace].
  intros Hp Hcall Hdesc Hsize [-> | ->] Hanswered Hnone Hf.
  - destruct (upload_prefix node this file p po fields size
                onComplete onProgress onError h tr Hp Hcall Hdesc Hsize)
      as (h1 & u & Hrun & _ & _ & _ & _ & _ & Hcallable).
    rewrite Hrun in Hanswered |- *.
    pose proof (Hanswered _ _ _ _ (upload_post_in_trace _ _ _ _ _ _ _ _ _ _))
      as Hpost.
    destruct (alloc_json_field_none body h1 "upload" Hnone) as (d & Hd & Hprop).
    destruct (alloc_json (JObj body) h1) as [v h2] eqn:Halloc.
    cbn [fst snd] in *. subst v.
    destruct (alloc_json_ok _ h1 _ _ Halloc) as [Hext _].
    eexists _, _, _, _. unfold try_catch.
    erewrite bind_Ok; cycle 1.
    { rewrite await_Axios_post_run, Hpost, Halloc. reflexivity. }
    erewrite bind_Throw by (by apply performTusUpload_without_upload).
    rewrite initiate_failed_run with (f := f)
      by (by rewrite (callable_extends h1 h2), Hcallable).
    split; [reflexivity|]. cbn [st_trace]. by rewrite <- !app_assoc.
  - destruct (replace_prefix node this file videoUri p po fields size
                onComplete onProgress onError h tr Hp Hcall Hdesc Hsize)
      as (h1 & u & Hrun & _ & _ & _ & _ & _ & _ & Hcallable).
    rewrite Hrun in Hanswered |- *.
    pose proof (Hanswered _ _ _ _ (replace_post_in_trace _ _ _ _ _ _ _ _ _ _ _))
      as Hpost.
    destruct (alloc_json_field_none body h1 "upload" Hnone) as (d & Hd & Hprop).
    destruct (alloc_json (JObj body) h1) as [v h2] eqn:Halloc.
    cbn [fst snd] in *. subst v.
    destruct (alloc_json_ok _ h1 _ _ Halloc) as [Hext _].
    eexists _, _, _, _. unfold try_catch.
    erewrite bind_Ok; cycle 1.
    { rewrite await_Axios_post_run, Hpost, Halloc. reflexivity. }
    erewrite bind_Ok by reflexivity. cbn [st_heap st_trace].
    erewrite bind_Throw; cycle 1.
    { apply performTusUpload_without_upload.
      by rewrite prop_store_prop, decide_False by (intros [? ?]; done). }
    rewrite initiate_failed_run with (f := f); cycle 1.
    { by rewrite callable_store_prop, (callable_extends h1 h2), Hcallable. }
    split; [reflexivity|]. cbn [st_trace]. by rewrite <- !app_assoc.
Qed.

(** ** Missing file, missing [params] *)

(** X3: [replace] of a path that cannot be stat'ed calls [onError] with
    the fixed message and settles with [null]; the store is as before, so
    [params] has received neither [file_name] nor [upload], and nothing is
    sent. *)
Theorem replace_missing_file node this path videoUri params
    onComplete onProgress onError s f :
  fs_statSync_size node path = None →
  typeof (st_heap s) params ≠ TFunction →
  callable (st_heap s) onError = Some f →
  replace node this (VStr path) videoUri params onComplete onProgress onError s
  = Ok RNull (St (st_heap s)
                 (st_trace s ++ [EvCall f [VStr "Unable to locate file to upload."]])).
Proof.
  intros Hstat Hparams Hf. unfold replace.
  erewrite bind_Ok by by apply shift_arguments_object.
  rewrite Hstat.
  erewrite bind_Ok
    by (erewrite bind_Ok by (by apply call_function); reflexivity).
  reflexivity.
Qed.

(** X4: in the call form without [params], a path that cannot be stat'ed
    is reported to the callback in the last position (the third callback),
    after the empty [params] object has been created; the result is
    [null]. *)
Theorem missing_file_short_form node this path videoUri
    onComplete onProgress onError s f :
  fs_statSync_size node path = None →
  typeof (st_heap s) onComplete = TFunction →
  callable (st_heap s) onError = Some f →
  let s' := St (<[fresh (dom (st_heap s)) := Obj None ∅]> (st_heap s))
               (st_trace s ++ [EvCall f [VStr "Unable to locate file to upload."]]) in
  upload node this (VStr path) onComplete onProgress onError VUndef s
  = Ok RNull s'
  ∧ replace node this (VStr path) videoUri onComplete onProgress onError VUndef s
    = Ok RNull s'.
Proof.
  intros Hstat Hfun Hf s'.
  assert (callable (<[fresh (dom (st_heap s)) := Obj None ∅]> (st_heap s)) onError
          = Some f) as Hf'.
  { rewrite callable_new_object; [done|apply fresh_lookup]. }
  split.
  - unfold upload.
    erewrite bind_Ok
      by (rewrite shift_arguments_function by done; reflexivity).
    cbv beta iota. rewrite Hstat.
    erewrite bind_Ok
      by (erewrite bind_Ok by (by apply call_function); reflexivity).
    reflexivity.
  - unfold replace.
    erewrite bind_Ok
      by (rewrite shift_arguments_function by done; reflexivity).
    cbv beta iota. rewrite Hstat.
    erewrite bind_Ok
      by (erewrite bind_Ok by (by apply call_function); reflexivity).
    reflexivity.
Qed.

(** X5: with [params] [undefined] or [null] (and no function in its
    place) and a file whose size resolves, [upload] and [replace] raise a
    [TypeError]; store and trace are as before: nothing is sent and
    [onError] is not called. *)
Theorem params_missing node this file videoUri params
    onComplete onProgress onError s size :
  params = VUndef ∨ params = VNull →
  resolved_size node (st_heap s) file = Some size →
  upload node this file params onComplete onProgress onError s
  = Throw (TypeError ("Cannot read properties of " +:+ show_nullish params +:+
                      " (reading 'upload')")) s
  ∧ replace node this file videoUri params onComplete onProgress onError s
    = Throw (TypeError ("Cannot set properties of " +:+ show_nullish params +:+
                        " (setting 'file_name')")) s.
Proof.
  intros Hparams Hsize.
  assert (typeof (st_heap s) params ≠ TFunction) as Hty
    by (by destruct Hparams as [-> | ->]).
  split.
  - unfold upload.
    erewrite bind_Ok by by apply shift_arguments_object.
    cbv beta iota.
    match goal with
    | |- (?m ≫= _) ?s = _ => assert (m s = Ok (Continue size) s) as Hsized
    end.
    { destruct file as [| | b | n | path | l]; simpl in Hsize;
        try discriminate; simplify_eq; try reflexivity.
      by destruct (fs_statSync_size node path); simplify_eq/=. }
    erewrite bind_Ok by exact Hsized. cbv beta iota.
    by destruct Hparams as [-> | ->].
  - unfold replace.
    erewrite bind_Ok by by apply shift_arguments_object.
    cbv beta iota.
    destruct Hparams as [-> | ->];
      destruct file as [| | b | n | path | l]; simpl in Hsize;
        try discriminate; try reflexivity;
        by destruct (fs_statSync_size node path).
Qed.

(** ** What the orchestration leaves alone *)

Lemma sized_upload node file ec size h tr :
  resolved_size node h file = Some size →
  match file with
  | VStr path =>
      match fs_statSync_size node path with
      | Some size => mret (Continue (VNum size))
      | None =>
          call "errorCallback" ec [VStr "Unable to locate file to upload."];;
          mret (Return RNull)
      end
  | _ => size ← get_prop file "size"; mret (Continue size)
  end (St h tr) = Ok (Continue size) (St h tr).
Proof.
  intros Hsize. destruct file as [| | b | n | path | l]; simpl in Hsize;
    try discriminate; simplify_eq; try reflexivity.
  by destruct (fs_statSync_size node path); simplify_eq/=.
Qed.

Lemma upload_prefix_run node this file p po size cc pc ec h tr h1 :
  h !! p = Some po → o_call po = None →
  resolved_size node h file = Some size →
  override_upload (VRef p) size (St h tr) = Ok tt (St h1 tr) →
  upload node this file (VRef p) cc pc ec (St h tr)
  = try_catch
      (data ← await_Axios_post node "/me/videos?field=uri,name,upload"
                (VRef p) (ro_headers (_requestOptions this));
       u ← _performTusUpload file size data cc pc ec;
       mret (RUpload u))
      (initiate_failed ec) (St h1 tr).
Proof.
  intros Hp Hcall Hsize Hrun. unfold upload.
  erewrite bind_Ok by (apply shift_arguments_object; by eapply typeof_object).
  cbv beta iota.
  erewrite bind_Ok by (by apply sized_upload). cbv beta iota.
  by erewrite bind_Ok by exact Hrun.
Qed.

Lemma replace_prefix_run node this file videoUri p po size cc pc ec h tr h1 :
  h !! p = Some po → o_call po = None →
  resolved_size node h file = Some size →
  override_upload (VRef p) size
    (St (store_prop h p "file_name" (resolved_name node h file)) tr)
  = Ok tt (St h1 tr) →
  replace node this file videoUri (VRef p) cc pc ec (St h tr)
  = try_catch
      (data ← await_Axios_post node (videoUri +:+ "/versions?fields=upload")
                (VRef p) (ro_headers (_requestOptions this));
       set_prop data "uri" (VStr videoUri);;
       u ← _performTusUpload file size data cc pc ec;
       mret (RUpload u))
      (initiate_failed ec) (St h1 tr).
Proof.
  intros Hp Hcall Hsize Hrun. unfold replace.
  erewrite bind_Ok by (apply shift_arguments_object; by eapply typeof_object).
  cbv beta iota.
  match goal with
  | |- (?m ≫= _) ?s = _ =>
      assert (m s = Ok (Continue size)
                (St (store_prop h p "file_name" (resolved_name node h file)) tr))
        as Hsized
  end.
  { destruct file as [| | b | n | path | l]; simpl in Hsize;
      try discriminate; simplify_eq; try reflexivity.
    by destruct (fs_statSync_size node path); simplify_eq/=. }
  erewrite bind_Ok by exact Hsized. cbv beta iota.
  by erewrite bind_Ok by exact Hrun.
Qed.

Lemma store_prop_other h l k x l' :
  l ≠ l' → store_prop h l k x !! l' = h !! l'.
Proof. intros Hne. unfold store_prop. by rewrite lookup_insert_ne. Qed.

Lemma override_upload_frame h tr p po fields size h1 :
  h !! p = Some po → descriptor h p fields →
  override_upload (VRef p) size (St h tr) = Ok tt (St h1 tr) →
  ∀ l, is_Some (h !! l) → l ≠ p →
       (∀ u0, prop h (VRef p) "upload" = VRef u0 → l ≠ u0) →
       h1 !! l = h !! l.
Proof.
  intros Hp [Habsent | u o Hgiven Hu Hne]; unfold override_upload;
    erewrite bind_Ok by reflexivity; erewrite bind_Ok by reflexivity;
    cbn [st_heap].
  - rewrite Habsent. cbn [typeof].
    erewrite bind_Ok by reflexivity. simpl. intros [= <-] l Hl Hlp _.
    rewrite store_prop_other by done. rewrite lookup_insert_ne; [done|].
    intros <-. rewrite fresh_lookup in Hl. by destruct Hl.
  - rewrite Hgiven. intros Hrun l Hl Hlp Hlu.
    assert ((params_upload ← get_prop (VRef p) "upload";
             set_prop params_upload "approach" (VStr "tus");;
             params_upload ← get_prop (VRef p) "upload";
             set_prop params_upload "size" size) (St h tr) = Ok tt (St h1 tr))
      as Helse.
    { destruct (typeof h (VRef u)) eqn:Hty; try exact Hrun.
      simpl in Hty. by destruct (o_call _). }
    clear Hrun. revert Helse.
    erewrite bind_Ok by reflexivity. cbn [st_heap]. rewrite Hgiven.
    erewrite bind_Ok by reflexivity.
    erewrite bind_Ok by reflexivity. cbn [st_heap].
    rewrite prop_store_prop, decide_False by (intros [? ?]; done).
    rewrite Hgiven. simpl. intros [= <-].
    assert (u ≠ l) as Hul by (intros ->; by apply (Hlu l)).
    clear Hlu.
    by rewrite !store_prop_other.
Qed.

Lemma rest_keeps_old_upload node this file size p cc pc ec h1 tr l :
  is_Some (h1 !! l) →
  st_heap (final_state
    (try_catch
       (data ← await_Axios_post node "/me/videos?field=uri,name,upload"
                 (VRef p) (ro_headers (_requestOptions this));
        u ← _performTusUpload file size data cc pc ec;
        mret (RUpload u))
       (initiate_failed ec) (St h1 tr))) !! l = h1 !! l.
Proof.
  intros Hl.
  apply try_post_keeps_old; [|apply keeps_store_initiate_failed|done].
  intros. by apply upload_rest_keeps_old.
Qed.

Lemma rest_keeps_old_replace node this file videoUri size p cc pc ec h1 tr l :
  is_Some (h1 !! l) →
  st_heap (final_state
    (try_catch
       (data ← await_Axios_post node (videoUri +:+ "/versions?fields=upload")
                 (VRef p) (ro_headers (_requestOptions this));
        set_prop data "uri" (VStr videoUri);;
        u ← _performTusUpload file size data cc pc ec;
        mret (RUpload u))
       (initiate_failed ec) (St h1 tr))) !! l = h1 !! l.
Proof.
  intros Hl.
  apply try_post_keeps_old; [|apply keeps_store_initiate_failed|done].
  intros. by apply replace_rest_keeps_old.
Qed.

(** X6: [upload] and [replace] write to [params] and to its [upload]
    descriptor only: every other object of the caller is as before however
    the run ends, and so is every property of [params] other than [upload]
    and, for [replace], [file_name]. *)
Theorem orchestration_frame node this file videoUri p po fields size
    onComplete onProgress onError s :
  st_heap s !! p = Some po → o_call po = None →
  descriptor (st_heap s) p fields →
  resolved_size node (st_heap s) file = Some size →
  let after_upload := st_heap (final_state
        (upload node this file (VRef p) onComplete onProgress onError s)) in
  let after_replace := st_heap (final_state
        (replace node this file videoUri (VRef p)
           onComplete onProgress onError s)) in
  (∀ l, is_Some (st_heap s !! l) → l ≠ p →
        (∀ u, prop (st_heap s) (VRef p) "upload" = VRef u → l ≠ u) →
        after_upload !! l = st_heap s !! l
        ∧ after_replace !! l = st_heap s !! l)
  ∧ (∀ k, k ≠ "upload" →
          prop after_upload (VRef p) k = prop (st_heap s) (VRef p) k)
  ∧ (∀ k, k ≠ "upload" → k ≠ "file_name" →
          prop after_replace (VRef p) k = prop (st_heap s) (VRef p) k).
Proof.
  destruct s as [h tr]. cbn [st_heap st_trace].
  intros Hp Hcall Hdesc Hsize.
  (* upload *)
  destruct (override_upload_ok h tr p po fields size Hp Hdesc)
    as (h1 & u1 & Hrun1 & _ & _ & _ & Hp1 & _ & _ & Hkeys1).
  pose proof (override_upload_frame h tr p po fields size h1 Hp Hdesc Hrun1)
    as Hframe1.
  rewrite (upload_prefix_run node this file p po size onComplete onProgress
             onError h tr h1 Hp Hcall Hsize Hrun1).
  (* replace *)
  set (name := resolved_name node h file).
  set (h0 := store_prop h p "file_name" name).
  assert (h0 !! p = Some (Obj (o_call po) (<["file_name" := name]> (o_props po))))
    as Hp0.
  { unfold h0, store_prop, heap_obj. by rewrite lookup_insert_eq, Hp. }
  assert (descriptor h0 p fields) as Hdesc0 by by apply descriptor_store_prop.
  destruct (override_upload_ok h0 tr p _ fields size Hp0 Hdesc0)
    as (h2 & u2 & Hrun2 & _ & _ & _ & Hp2 & _ & _ & Hkeys2).
  pose proof (override_upload_frame h0 tr p _ fields size h2 Hp0 Hdesc0 Hrun2)
    as Hframe2.
  rewrite (replace_prefix_run node this file videoUri p po size onComplete
             onProgress onError h tr h2 Hp Hcall Hsize Hrun2).
  split; [|split].
  - intros l Hl Hlp Hlu. split.
    + rewrite rest_keeps_old_upload by (by rewrite Hframe1).
      by apply Hframe1.
    + assert (h0 !! l = h !! l) as Hl0 by (by apply store_prop_other).
      assert (h2 !! l = h0 !! l) as Hl2.
      { apply Hframe2; [by rewrite Hl0|done|].
        intros u0 Hu0. apply Hlu. rewrite <- Hu0. unfold h0.
        by rewrite prop_store_prop, decide_False by (intros [? ?]; done). }
      rewrite rest_keeps_old_replace by (by rewrite Hl2, Hl0).
      by rewrite Hl2.
  - intros k Hk.
    rewrite (prop_same_object h1) by (by apply rest_keeps_old_upload).
    by apply Hkeys1.
  - intros k Hk Hname.
    rewrite (prop_same_object h2) by (by apply rest_keeps_old_replace).
    rewrite Hkeys2 by done. unfold h0.
    by rewrite prop_store_prop, decide_False by (intros [? ?]; done).
Qed.

(** ** The callbacks of the returned handle *)

(** X7: the handle [upload] returns carries [onProgress] and [onError] as
    they were passed and reads from a stream on the path, or from the
    file-like object itself; its success callback calls [onComplete] with
    the [uri] of the response. *)
Theorem upload_handle_callbacks node this file p po fields size
    completeCallback progressCallback errorCallback s j ju link uri f :
  st_heap s !! p = Some po → o_call po = None →
  descriptor (st_heap s) p fields →
  resolved_size node (st_heap s) file = Some size →
  answered node
    (st_trace (final_state
       (upload node this file (VRef p)
          completeCallback progressCallback errorCallback s))) j →
  json_field j "upload" = Some ju →
  json_field ju "upload_link" = Some (JStr link) →
  json_field j "uri" = Some (JStr uri) →
  callable (st_heap s) completeCallback = Some f →
  ∃ u s',
    upload node this file (VRef p)
      completeCallback progressCallback errorCallback s
    = Ok (RUpload u) s'
    ∧ onError (tus_options_of u) = errorCallback
    ∧ onProgress (tus_options_of u) = progressCallback
    ∧ tus_file u = match file with
                   | VStr path => SrcStream path
                   | _ => SrcValue file
                   end
    ∧ tus_onSuccess u s'
      = Ok tt (St (st_heap s') (st_trace s' ++ [EvCall f [VStr uri]])).
Proof.
  destruct s as [h tr]. cbn [st_heap st_trace].
  intros Hp Hcall Hdesc Hsize Hanswered Hupload Hlink Huri Hf.
  destruct (override_upload_ok h tr p po fields size Hp Hdesc)
    as (h1 & u1 & Hrun1 & _ & _ & _ & _ & _ & Hcallable & _).
  rewrite (upload_prefix_run node this file p po size completeCallback
             progressCallback errorCallback h tr h1 Hp Hcall Hsize Hrun1) in Hanswered |- *.
  pose proof (Hanswered _ _ _ _ (upload_post_in_trace _ _ _ _ _ _ _ _ _ _))
    as Hpost.
  pose proof (alloc_json_upload_link j h1 ju link Hupload Hlink)
    as (d & lu & Hd & Hsome & Hup & Hlu).
  pose proof (alloc_json_field j h1 "uri" (JStr uri) Huri)
    as (d' & hk & Hd' & _ & Hprop & _).
  destruct (alloc_json j h1) as [v h2] eqn:Halloc. cbn [fst snd] in *.
  subst v. injection Hd' as <-.
  destruct (alloc_json_ok j h1 _ _ Halloc) as [Hext _].
  eexists _, _. split; [|split; [|split; [|split]]].
  - unfold try_catch. erewrite bind_Ok; cycle 1.
    { rewrite await_Axios_post_run, Hpost, Halloc. reflexivity. }
    erewrite bind_Ok by (by apply performTusUpload_run).
    reflexivity.
  - reflexivity.
  - reflexivity.
  - reflexivity.
  - unfold tus_onSuccess. cbn [onSuccess tus_options_of sc_attempt
                               sc_completeCallback].
    erewrite bind_Ok by reflexivity. cbn [st_heap fst snd]. rewrite Hprop.
    apply call_function. cbn [st_heap].
    by rewrite (callable_extends h1 h2), Hcallable.
Qed.

(** ** The request builder, in full *)

Lemma header_absent (headers : list (string * string)) k :
  k ∉ map fst headers → header headers k = None.
Proof.
  unfold header. induction headers as [|[k' v] headers IH]; simpl; [done|].
  intros Hk. apply not_elem_of_cons in Hk as [Hne Hk].
  destruct (String.eqb_spec k' k) as [->|_]; [done|]. by apply IH.
Qed.

Lemma header_cons key value (headers : list (string * string)) k :
  header ((key, value) :: headers) k
  = if String.eqb key k then Some value else header headers k.
Proof. unfold header. simpl. by destruct (String.eqb key k). Qed.

Lemma apply_default_headers_values ro hd tr defaults :
  hd ≠ ro → NoDup (map fst defaults) →
  ∀ h, prop h (VRef ro) "headers" = VRef hd →
  ∃ h',
    apply_default_headers (VRef ro) defaults (St h tr) = Ok tt (St h' tr)
    ∧ (∀ l, l ≠ hd → h' !! l = h !! l)
    ∧ (∀ k, prop h' (VRef hd) k
            = match header defaults k with
              | Some value => if truthy (prop h (VRef hd) k)
                              then prop h (VRef hd) k else VStr value
              | None => prop h (VRef hd) k
              end).
Proof.
  intros Hne. induction defaults as [|[key value] defaults IH];
    intros Hnodup h Hheaders.
  - by exists h.
  - apply NoDup_cons in Hnodup as [Hkey Hnodup].
    simpl apply_default_headers.
    set (h1 := if negb (truthy (prop h (VRef hd) key))
               then store_prop h hd key (VStr value) else h).
    assert (∀ l, l ≠ hd → h1 !! l = h !! l) as Hframe1.
    { intros l Hl. unfold h1. destruct (negb _); [|done].
      by apply store_prop_other. }
    assert (prop h1 (VRef ro) "headers" = VRef hd) as Hheaders1.
    { rewrite (prop_same_object h); [done|]. by apply Hframe1. }
    destruct (IH Hnodup h1 Hheaders1) as (h' & Hrun & Hframe & Hvalues).
    exists h'. split; [|split].
    + erewrite bind_Ok by reflexivity. cbn [st_heap]. rewrite Hheaders.
      erewrite bind_Ok by reflexivity. cbn [st_heap].
      erewrite bind_Ok; [exact Hrun|].
      unfold h1. destruct (negb _); [|done].
      by apply header_write.
    + intros l Hl. rewrite Hframe by done. by apply Hframe1.
    + intros k. rewrite Hvalues, header_cons.
      destruct (String.eqb_spec key k) as [->|Hk].
      * rewrite header_absent by done.
        unfold h1. destruct (truthy (prop h (VRef hd) k)) eqn:Ht; cbn [negb].
        -- done.
        -- by rewrite prop_store_prop, decide_True.
      * assert (prop h1 (VRef hd) k = prop h (VRef hd) k) as ->; [|done].
        unfold h1. destruct (negb _); [|done].
        by rewrite prop_store_prop, decide_False by (intros [_ ?]; done).
Qed.

Lemma buildRequestOptions_run this o oo h tr :
  h !! o = Some oo →
  ro_headers (_requestOptions this) = default_headers →
  headers_usable h o →
  ∃ ro hd h',
    _buildRequestOptions this (VRef o) (St h tr) = Ok (VRef ro) (St h' tr)
    ∧ h !! ro = None ∧ hd ≠ ro ∧ hd ≠ o
    ∧ (∀ hd0, prop h (VRef o) "headers" = VRef hd0 → hd = hd0)
    ∧ (truthy (prop h (VRef o) "headers") = false → h !! hd = None)
    ∧ o_props (heap_obj h' ro)
      = <["data" := prop h (VRef o) "data"]>
          (<["headers" := VRef hd]>
             (<["method" := method_or_GET h o]> (o_props oo)))
    ∧ (∀ l, l ≠ hd → l ≠ ro → h' !! l = h !! l)
    ∧ (∀ k, k ≠ "Authorization" → k ≠ "Content-Type" →
         prop h' (VRef hd) k
         = match header default_headers k with
           | Some value =>
               if truthy (supplied_header h o k)
               then supplied_header h o k else VStr value
           | None => supplied_header h o k
           end)
    ∧ prop h' (VRef hd) "Authorization"
      = (if present (_accessToken this)
         then VStr ("Bearer " +:+ default "" (_accessToken this))
         else if present (_clientId this) && present (_clientSecret this)
         then VStr ("Basic " +:+ default "" (_clientId this) +:+ ":" +:+
                    default "" (_clientSecret this))
         else supplied_header h o "Authorization")
    ∧ prop h' (VRef hd) "Content-Type"
      = (if has_body (method_or_GET h o)
            && negb (truthy (supplied_header h o "Content-Type"))
         then VStr "application/json"
         else supplied_header h o "Content-Type").
Proof.
  unfold headers_usable, supplied_header, method_or_GET.
  intros Ho Hdefaults Hheaders.
  pose proof (fresh_lookup h) as Hfresh.
  set (ro := fresh (dom h)) in *.
  assert (ro ≠ o) as Hro by (intros ->; congruence).
  set (h1 := <[ro := Obj None (o_props (heap_obj h o))]> h).
  assert (prop h1 (VRef o) "method" = prop h (VRef o) "method") as Hm.
  { unfold h1. by rewrite prop_new_object, decide_False. }
  set (method := if truthy (prop h (VRef o) "method")
                 then prop h (VRef o) "method" else VStr "GET").
  set (h2 := store_prop h1 ro "method" method).
  assert (prop h2 (VRef o) "headers" = prop h (VRef o) "headers") as Hh2.
  { unfold h2, h1.
    rewrite prop_store_prop, decide_False by (intros [? ?]; done).
    by rewrite prop_new_object, decide_False. }
  assert (is_Some (h2 !! ro)) as Hro2.
  { apply store_prop_is_Some. unfold h1. rewrite lookup_insert_eq. by eexists. }
  assert (∀ l, l ≠ ro → h2 !! l = h !! l) as Hframe2.
  { intros l Hl. unfold h2, h1.
    by rewrite store_prop_other, lookup_insert_ne. }
  assert (∃ hd h3,
    (if truthy (prop h (VRef o) "headers")
     then mret (prop h (VRef o) "headers") else new_object ∅) (St h2 tr)
    = Ok (VRef hd) (St h3 tr)
    ∧ hd ≠ ro ∧ hd ≠ o
    ∧ (∀ hd0, prop h (VRef o) "headers" = VRef hd0 → hd = hd0)
    ∧ (truthy (prop h (VRef o) "headers") = false → h !! hd = None)
    ∧ (∀ l, l ≠ hd → h3 !! l = h2 !! l)
    ∧ (∀ k, prop h3 (VRef hd) k = prop h (prop h (VRef o) "headers") k))
    as (hd & h3 & Hstep & Hhd & Hhdo & Hsame & Hnew & Hframe3 & Hsupplied).
  { destruct Hheaders as [Hfalsy | (hd & Hgiven & [ohd Hhd] & Hhdo)].
    - pose proof (fresh_lookup h2) as Hfresh2.
      set (hd := fresh (dom h2)) in *.
      assert (hd ≠ ro) as Hne.
      { intros Heq. rewrite Heq in Hfresh2. rewrite Hfresh2 in Hro2.
        by destruct Hro2. }
      assert (h !! hd = None) as Hnone by (by rewrite <- Hframe2).
      exists hd, (<[hd := Obj None ∅]> h2).
      split; [by rewrite Hfalsy|]. split; [done|].
      split; [intros ->; congruence|].
      split; [intros hd0 Hhd0; by rewrite Hhd0 in Hfalsy|].
      split; [done|].
      split; [intros l Hl; by rewrite lookup_insert_ne|].
      intros k. rewrite prop_new_object, decide_True by done.
      by destruct (prop h (VRef o) "headers").
    - assert (hd ≠ ro) as Hne by (intros ->; congruence).
      exists hd, h2.
      split; [by rewrite Hgiven|]. split; [done|]. split; [done|].
      split; [intros hd0; rewrite Hgiven; by intros [= ->]|].
      split; [by rewrite Hgiven|]. split; [done|].
      intros k. rewrite Hgiven.
      apply prop_same_object. by apply Hframe2. }
  set (h4 := store_prop h3 ro "headers" (VRef hd)).
  assert (prop h4 (VRef o) "data" = prop h (VRef o) "data") as Hd.
  { unfold h4. rewrite prop_store_prop, decide_False by (intros [? ?]; done).
    apply prop_same_object. rewrite Hframe3 by done. by apply Hframe2. }
  set (h5 := store_prop h4 ro "data" (prop h (VRef o) "data")).
  assert (∀ l, l ≠ hd → l ≠ ro → h5 !! l = h !! l) as Hframe5.
  { intros l Hl Hl'. unfold h5, h4.
    rewrite !store_prop_other by done. rewrite Hframe3 by done.
    by apply Hframe2. }
  assert (heap_obj h5 ro
          = Obj None (<["data" := prop h (VRef o) "data"]>
                        (<["headers" := VRef hd]>
                           (<["method" := method]> (o_props oo))))) as Hobj5.
  { unfold h5. rewrite heap_obj_store_prop, decide_True by done.
    unfold h4. rewrite heap_obj_store_prop, decide_True by done.
    assert (heap_obj h3 ro = heap_obj h2 ro) as ->.
    { unfold heap_obj. by rewrite Hframe3. }
    unfold h2. rewrite heap_obj_store_prop, decide_True by done.
    unfold h1. rewrite heap_obj_insert, decide_True by done.
    unfold heap_obj. by rewrite Ho. }
  assert (prop h5 (VRef ro) "headers" = VRef hd) as Hinv5.
  { simpl. rewrite Hobj5. simpl.
    by rewrite lookup_insert_ne, lookup_insert_eq. }
  assert (∀ k, prop h5 (VRef hd) k = prop h (prop h (VRef o) "headers") k)
    as Hsupplied5.
  { intros k. unfold h5, h4.
    rewrite !prop_store_prop, !decide_False by (intros [? ?]; done).
    apply Hsupplied. }
  destruct (apply_default_headers_values ro hd tr default_headers Hhd)
    with (h := h5) as (h6 & Hrun6 & Hframe6 & Hvalues6); [|done|].
  { repeat constructor; rewrite ?not_elem_of_cons;
      repeat split; try done; apply not_elem_of_nil. }
  assert (prop h6 (VRef ro) "headers" = VRef hd) as Hinv6.
  { rewrite (prop_same_object h5); [done|]. by apply Hframe6. }
  set (auth := if present (_accessToken this)
        then VStr ("Bearer " +:+ default "" (_accessToken this))
        else if present (_clientId this) && present (_clientSecret this)
        then VStr ("Basic " +:+ default "" (_clientId this) +:+ ":" +:+
                   default "" (_clientSecret this))
        else prop h (prop h (VRef o) "headers") "Authorization").
  set (h7 := if present (_accessToken this)
             then store_prop h6 hd "Authorization" auth
             else if present (_clientId this) && present (_clientSecret this)
             then store_prop h6 hd "Authorization" auth else h6).
  assert (∀ l, l ≠ hd → h7 !! l = h6 !! l) as Hframe7.
  { intros l Hl. unfold h7.
    destruct (present (_accessToken this));
      [|destruct (present (_clientId this) && present (_clientSecret this))];
      try done; by apply store_prop_other. }
  assert (∀ k, k ≠ "Authorization" → prop h7 (VRef hd) k = prop h6 (VRef hd) k)
    as Hother7.
  { intros k Hk. unfold h7.
    destruct (present (_accessToken this));
      [|destruct (present (_clientId this) && present (_clientSecret this))];
      try done;
      by rewrite prop_store_prop, decide_False by (intros [_ ?]; done). }
  assert (prop h7 (VRef hd) "Authorization" = auth) as Hauth7.
  { unfold h7, auth.
    destruct (present (_accessToken this));
      [|destruct (present (_clientId this) && present (_clientSecret this))];
      try (by rewrite prop_store_prop, decide_True).
    by rewrite Hvalues6, Hsupplied5. }
  assert (prop h7 (VRef ro) "headers" = VRef hd) as Hinv7.
  { rewrite (prop_same_object h6); [done|]. by apply Hframe7. }
  assert (prop h7 (VRef ro) "method" = method) as Hmethod7.
  { rewrite (prop_same_object h6) by (by apply Hframe7).
    rewrite (prop_same_object h5) by (by apply Hframe6).
    simpl. rewrite Hobj5. simpl.
    rewrite 2!lookup_insert_ne by done. by rewrite lookup_insert_eq. }
  set (ct := prop h (prop h (VRef o) "headers") "Content-Type").
  assert (prop h7 (VRef hd) "Content-Type" = ct) as Hct7.
  { rewrite Hother7, Hvalues6 by done. apply Hsupplied5. }
  set (h8 := if has_body method
             then if negb (truthy ct)
                  then store_prop h7 hd "Content-Type" (VStr "application/json")
                  else h7
             else h7).
  assert (∀ l, l ≠ hd → h8 !! l = h7 !! l) as Hframe8.
  { intros l Hl. unfold h8. destruct (has_body method); [|done].
    destruct (negb _); [|done]. by apply store_prop_other. }
  assert (∀ k, k ≠ "Content-Type" → prop h8 (VRef hd) k = prop h7 (VRef hd) k)
    as Hother8.
  { intros k Hk. unfold h8. destruct (has_body method); [|done].
    destruct (negb _); [|done].
    by rewrite prop_store_prop, decide_False by (intros [_ ?]; done). }
  exists ro, hd, h8.
  split; [|split; [done|split; [done|split; [done|split; [done|split;
    [done|split; [|split; [|split; [|split]]]]]]]]].
  - unfold _buildRequestOptions.
    erewrite bind_Ok by reflexivity. erewrite bind_Ok by reflexivity.
    cbn [st_heap st_trace spread]. fold ro. fold h1.
    erewrite bind_Ok by reflexivity. cbn [st_heap]. rewrite Hm. fold method.
    erewrite bind_Ok by reflexivity. cbn [st_heap st_trace]. fold h2.
    erewrite bind_Ok by reflexivity. cbn [st_heap]. rewrite Hh2.
    erewrite bind_Ok by exact Hstep.
    erewrite bind_Ok by reflexivity. cbn [st_heap st_trace]. fold h4.
    erewrite bind_Ok by reflexivity. cbn [st_heap]. rewrite Hd.
    erewrite bind_Ok by reflexivity. cbn [st_heap st_trace]. fold h5.
    rewrite Hdefaults.
    erewrite bind_Ok by exact Hrun6.
    erewrite bind_Ok; cycle 1.
    { instantiate (1 := St h7 tr). instantiate (1 := tt). unfold h7.
      destruct (present (_accessToken this));
        [|destruct (present (_clientId this) && present (_clientSecret this))];
        try done; by apply header_write. }
    erewrite bind_Ok by reflexivity. cbn [st_heap]. rewrite Hmethod7.
    erewrite bind_Ok; [reflexivity|].
    unfold h8. destruct (has_body method); [|done].
    erewrite bind_Ok by reflexivity. cbn [st_heap]. rewrite Hinv7.
    erewrite bind_Ok by reflexivity. cbn [st_heap]. rewrite Hct7.
    destruct (negb _); [|done]. by apply header_write.
  - assert (heap_obj h8 ro = heap_obj h5 ro) as ->; [|by rewrite Hobj5].
    unfold heap_obj. by rewrite Hframe8, Hframe7, Hframe6.
  - intros l Hl Hl'. rewrite Hframe8, Hframe7, Hframe6 by done.
    by apply Hframe5.
  - intros k Hauth Hct. rewrite Hother8, Hother7, Hvalues6 by done.
    by rewrite !Hsupplied5.
  - by rewrite Hother8.
  - unfold h8. fold ct. destruct (has_body method); cbn [andb]; [|done].
    destruct (truthy ct); cbn [negb]; [done|].
    by rewrite prop_store_prop, decide_True.
Qed.

Lemma built_headers_prop h' ro props :
  o_props (heap_obj h' ro) = props →
  ∀ k, prop h' (VRef ro) k = default VUndef (props !! k).
Proof. intros <- k. reflexivity. Qed.

(** X8: a header the caller supplied with a truthy value wins over the
    default of the same name; [Accept] and [User-Agent] get their default
    otherwise; headers other than these two, [Authorization] and
    [Content-Type] are what the caller supplied. *)
Theorem builder_default_headers this o oo s :
  st_heap s !! o = Some oo →
  ro_headers (_requestOptions this) = default_headers →
  headers_usable (st_heap s) o →
  ∃ requestOptions headers s',
    _buildRequestOptions this (VRef o) s = Ok (VRef requestOptions) s'
    ∧ prop (st_heap s') (VRef requestOptions) "headers" = VRef headers
    ∧ (∀ key value, In (key, value) default_headers →
         prop (st_heap s') (VRef headers) key
         = if truthy (supplied_header (st_heap s) o key)
           then supplied_header (st_heap s) o key else VStr value)
    ∧ (∀ key, ¬ In key ["Accept"; "User-Agent"; "Authorization"; "Content-Type"] →
         prop (st_heap s') (VRef headers) key = supplied_header (st_heap s) o key).
Proof.
  destruct s as [h tr]. cbn [st_heap]. intros Ho Hdefaults Husable.
  destruct (buildRequestOptions_run this o oo h tr Ho Hdefaults Husable)
    as (ro & hd & h' & Hrun & _ & _ & _ & _ & _ & Hprops & _ & Hvalues & _).
  exists ro, hd, (St h' tr). cbn [st_heap].
  split; [done|]. split; [|split].
  - rewrite (built_headers_prop _ _ _ Hprops).
    by rewrite lookup_insert_ne, lookup_insert_eq.
  - intros key value [[= <- <-] | [[= <- <-] | []]]; by rewrite Hvalues.
  - intros key Hkey. rewrite Hvalues.
    + rewrite header_absent; [done|].
      rewrite list_elem_of_In. unfold default_headers. simpl.
      intros [?|[?|[]]]; apply Hkey; simpl; tauto.
    + intros ->. apply Hkey. simpl. tauto.
    + intros ->. apply Hkey. simpl. tauto.
Qed.

(** X9: the built options are a new object; [method] is the caller's or
    ["GET"], [data] is the caller's, every other property but [headers]
    ([url] among them) is copied from [options], and nothing is sent. *)
Theorem builder_copies_options this o oo s :
  st_heap s !! o = Some oo →
  ro_headers (_requestOptions this) = default_headers →
  headers_usable (st_heap s) o →
  ∃ requestOptions s',
    _buildRequestOptions this (VRef o) s = Ok (VRef requestOptions) s'
    ∧ st_heap s !! requestOptions = None
    ∧ prop (st_heap s') (VRef requestOptions) "method"
      = (if truthy (prop (st_heap s) (VRef o) "method")
         then prop (st_heap s) (VRef o) "method" else VStr "GET")
    ∧ prop (st_heap s') (VRef requestOptions) "data"
      = prop (st_heap s) (VRef o) "data"
    ∧ (∀ k, k ≠ "method" → k ≠ "headers" → k ≠ "data" →
         prop (st_heap s') (VRef requestOptions) k = prop (st_heap s) (VRef o) k)
    ∧ st_trace s' = st_trace s.
Proof.
  destruct s as [h tr]. cbn [st_heap st_trace]. intros Ho Hdefaults Husable.
  destruct (buildRequestOptions_run this o oo h tr Ho Hdefaults Husable)
    as (ro & hd & h' & Hrun & Hfresh & _ & _ & _ & _ & Hprops & _).
  exists ro, (St h' tr). cbn [st_heap st_trace].
  split; [done|]. split; [done|].
  pose proof (built_headers_prop _ _ _ Hprops) as Hread.
  split; [|split; [|split; [|done]]].
  - rewrite Hread. by rewrite 2!lookup_insert_ne, lookup_insert_eq.
  - rewrite Hread. by rewrite lookup_insert_eq.
  - intros k Hm Hh Hd. rewrite Hread. rewrite !lookup_insert_ne by done.
    simpl. unfold heap_obj. by rewrite Ho.
Qed.

(** X10: for POST, PATCH, PUT and DELETE the built [Content-Type] is the
    caller's when truthy and ["application/json"] otherwise; for any other
    method it is left as the caller supplied it. *)
Theorem builder_content_type this o oo s :
  st_heap s !! o = Some oo →
  ro_headers (_requestOptions this) = default_headers →
  headers_usable (st_heap s) o →
  ∃ requestOptions headers s',
    _buildRequestOptions this (VRef o) s = Ok (VRef requestOptions) s'
    ∧ prop (st_heap s') (VRef requestOptions) "headers" = VRef headers
    ∧ prop (st_heap s') (VRef headers) "Content-Type"
      = if has_body (method_or_GET (st_heap s) o)
        then if truthy (supplied_header (st_heap s) o "Content-Type")
             then supplied_header (st_heap s) o "Content-Type"
             else VStr "application/json"
        else supplied_header (st_heap s) o "Content-Type".
Proof.
  destruct s as [h tr]. cbn [st_heap]. intros Ho Hdefaults Husable.
  destruct (buildRequestOptions_run this o oo h tr Ho Hdefaults Husable)
    as (ro & hd & h' & Hrun & _ & _ & _ & _ & _ & Hprops & _ & _ & _ & Hct).
  exists ro, hd, (St h' tr). cbn [st_heap].
  split; [done|]. split.
  - rewrite (built_headers_prop _ _ _ Hprops).
    by rewrite lookup_insert_ne, lookup_insert_eq.
  - rewrite Hct. destruct (has_body _); cbn [andb]; [|done].
    by destruct (truthy _).
Qed.

(** X11: the builder does not copy the caller's [headers] object: the
    built options refer to that very object, while [options] itself and
    every other existing object are as before. *)
Theorem builder_shares_headers this o oo s :
  st_heap s !! o = Some oo →
  ro_headers (_requestOptions this) = default_headers →
  headers_usable (st_heap s) o →
  ∃ requestOptions s',
    _buildRequestOptions this (VRef o) s = Ok (VRef requestOptions) s'
    ∧ (∀ headers, prop (st_heap s) (VRef o) "headers" = VRef headers →
         prop (st_heap s') (VRef requestOptions) "headers" = VRef headers)
    ∧ (∀ l, is_Some (st_heap s !! l) →
            (∀ headers, prop (st_heap s) (VRef o) "headers" = VRef headers →
                        l ≠ headers) →
            st_heap s' !! l = st_heap s !! l).
Proof.
  destruct s as [h tr]. cbn [st_heap]. intros Ho Hdefaults Husable.
  destruct (buildRequestOptions_run this o oo h tr Ho Hdefaults Husable)
    as (ro & hd & h' & Hrun & Hfresh & _ & _ & Hsame & Hnew & Hprops & Hframe & _).
  exists ro, (St h' tr). cbn [st_heap].
  split; [done|]. split.
  - intros headers Hgiven. rewrite (built_headers_prop _ _ _ Hprops).
    rewrite lookup_insert_ne, lookup_insert_eq by done. simpl.
    by rewrite (Hsame headers).
  - intros l [ol Hl] Hother. apply Hframe.
    + intros ->. destruct Husable as [Hfalsy | (hd0 & Hgiven & _)].
      * rewrite Hnew in Hl; done.
      * apply (Hother hd0); [done|]. by apply Hsame.
    + intros ->. congruence.
Qed.

(** X12: after [setAccessToken(token)] the builder uses that token and no
    earlier one: [Bearer token] when it is a non-empty string; when it is
    empty or [undefined] the client falls back to the [Basic] form, or to
    the caller's header without both id and secret. *)
Theorem token_in_force this token o oo s :
  st_heap s !! o = Some oo →
  ro_headers (_requestOptions this) = default_headers →
  headers_usable (st_heap s) o →
  ∃ requestOptions headers s',
    _buildRequestOptions (setAccessToken this token) (VRef o) s
    = Ok (VRef requestOptions) s'
    ∧ prop (st_heap s') (VRef requestOptions) "headers" = VRef headers
    ∧ prop (st_heap s') (VRef headers) "Authorization"
      = match token with
        | Some t =>
            if negb (String.eqb t "") then VStr ("Bearer " +:+ t)
            else if present (_clientId this) && present (_clientSecret this)
            then VStr ("Basic " +:+ default "" (_clientId this) +:+ ":" +:+
                       default "" (_clientSecret this))
            else supplied_header (st_heap s) o "Authorization"
        | None =>
            if present (_clientId this) && present (_clientSecret this)
            then VStr ("Basic " +:+ default "" (_clientId this) +:+ ":" +:+
                       default "" (_clientSecret this))
            else supplied_header (st_heap s) o "Authorization"
        end.
Proof.
  destruct s as [h tr]. cbn [st_heap]. intros Ho Hdefaults Husable.
  destruct (buildRequestOptions_run (setAccessToken this token) o oo h tr
              Ho Hdefaults Husable)
    as (ro & hd & h' & Hrun & _ & _ & _ & _ & _ & Hprops & _ & _ & Hauth & _).
  exists ro, hd, (St h' tr). cbn [st_heap].
  split; [done|]. split.
  - rewrite (built_headers_prop _ _ _ Hprops).
    by rewrite lookup_insert_ne, lookup_insert_eq.
  - rewrite Hauth. by destruct token as [t|].
Qed.

(** ** Sending a request *)

(** X13: for an options object with a string [url], [request] makes one
    Axios call whose config has that [url] and the method or ["GET"]; a
    rejection is raised again unchanged, an answer makes [request] return
    its data. *)
Theorem request_sends_built_options node this o oo url s :
  st_heap s !! o = Some oo →
  ro_headers (_requestOptions this) = default_headers →
  headers_usable (st_heap s) o →
  prop (st_heap s) (VRef o) "url" = VStr url →
  ∃ config snapshot,
    prop snapshot (VRef config) "url" = VStr url
    ∧ prop snapshot (VRef config) "method" = method_or_GET (st_heap s) o
    ∧ (∀ error, Axios node (VRef config) snapshot = inl error →
         request node this (VRef o) s
         = Throw error (St snapshot (st_trace s ++ [EvAxios (VRef config) snapshot])))
    ∧ (∀ data, Axios node (VRef config) snapshot = inr data →
         request node this (VRef o) s
         = Ok (RValue (alloc_json data snapshot).1)
              (St (alloc_json data snapshot).2
                  (st_trace s ++ [EvAxios (VRef config) snapshot]))).
Proof.
  destruct s as [h tr]. cbn [st_heap st_trace]. intros Ho Hdefaults Husable Hurl.
  destruct (buildRequestOptions_run this o oo h tr Ho Hdefaults Husable)
    as (ro & hd & h' & Hrun & _ & _ & _ & _ & _ & Hprops & _).
  pose proof (built_headers_prop _ _ _ Hprops) as Hread.
  exists ro, h'.
  assert (request node this (VRef o) (St h tr)
          = try_catch (data ← await_Axios node (VRef ro); mret (RValue data))
                      (λ error, throw error) (St h' tr)) as ->.
  { unfold request. erewrite bind_Ok by reflexivity.
    erewrite bind_Ok; cycle 1.
    { simpl. by destruct (o_call _). }
    erewrite bind_Ok by reflexivity. erewrite bind_Ok by reflexivity.
    cbn [st_heap]. rewrite Hurl. cbn [typeof].
    by erewrite bind_Ok by exact Hrun. }
  split; [|split; [|split]].
  - rewrite Hread, !lookup_insert_ne by done.
    rewrite <- Hurl. simpl. unfold heap_obj. by rewrite Ho.
  - rewrite Hread. by rewrite 2!lookup_insert_ne, lookup_insert_eq.
  - intros error Herror. unfold try_catch, mbind, M_bind, await_Axios.
    cbn [st_heap st_trace]. by rewrite Herror.
  - intros data Hdata. unfold try_catch, mbind, M_bind, await_Axios, materialise.
    cbn [st_heap st_trace]. rewrite Hdata.
    by destruct (alloc_json data h').
Qed.

(** ** Token requests *)

(** X14: [accessToken] sends one POST to
    [https://api.vimeo.com//oauth/access_token] (the host, a slash, and the
    endpoint that starts with a slash) with [grant_type], [code] and
    [redirect_uri] in the body and the default headers plus the form
    content type, so without [Authorization]; a rejection is raised again
    unchanged, an answer is returned as data. *)
Theorem accessToken_exchange node this code redirectUri s :
  ro_headers (_requestOptions this) = default_headers →
  let body := fresh (dom (st_heap s)) in
  let snapshot :=
    <[body := Obj None (<["redirect_uri" := opt_val redirectUri]>
                        (<["code" := opt_val code]>
                         (<["grant_type" := VStr "authorization_code"]> ∅)))]>
      (st_heap s) in
  let sent := EvAxiosPost "https://api.vimeo.com//oauth/access_token"
                (VRef body) snapshot form_headers in
  header form_headers "Authorization" = None
  ∧ (∀ error,
       Axios_post node "https://api.vimeo.com//oauth/access_token"
         (VRef body) snapshot form_headers = inl error →
       accessToken node this code redirectUri s
       = Throw error (St snapshot (st_trace s ++ [sent])))
  ∧ (∀ data,
       Axios_post node "https://api.vimeo.com//oauth/access_token"
         (VRef body) snapshot form_headers = inr data →
       accessToken node this code redirectUri s
       = Ok (RValue (alloc_json data snapshot).1)
            (St (alloc_json data snapshot).2 (st_trace s ++ [sent]))).
Proof.
  intros Hdefaults body snapshot sent. split; [done|].
  assert (accessToken node this code redirectUri s
          = try_catch
              (data ← await_Axios_post node
                        "https://api.vimeo.com//oauth/access_token"
                        (VRef body) form_headers;
               mret (RValue data))
              (λ error, throw error) (St snapshot (st_trace s))) as ->.
  { unfold accessToken. erewrite bind_Ok by reflexivity.
    by rewrite Hdefaults. }
  unfold try_catch, mbind, M_bind.
  rewrite await_Axios_post_run. split.
  - by intros error ->.
  - by intros data ->.
Qed.

(** X15: [generateClientCredentials] sends one POST to
    [https://api.vimeo.com//oauth/authorize/client] whose body holds
    [grant_type: "client_credentials"] and the scope normalised as in
    [buildAuthorizationEndpoint], with the form headers and no
    [Authorization]; a rejection is raised again unchanged, an answer is
    returned as data. *)
Theorem generateClientCredentials_request node this scope s :
  ro_headers (_requestOptions this) = default_headers →
  let query := fresh (dom (st_heap s)) in
  let snapshot :=
    <[query := Obj None (<["scope" := VStr (normalized_scope scope)]>
                         (<["grant_type" := VStr "client_credentials"]> ∅))]>
      (st_heap s) in
  let sent := EvAxiosPost "https://api.vimeo.com//oauth/authorize/client"
                (VRef query) snapshot form_headers in
  header form_headers "Authorization" = None
  ∧ (∀ error,
       Axios_post node "https://api.vimeo.com//oauth/authorize/client"
         (VRef query) snapshot form_headers = inl error →
       generateClientCredentials node this scope s
       = Throw error (St snapshot (st_trace s ++ [sent])))
  ∧ (∀ data,
       Axios_post node "https://api.vimeo.com//oauth/authorize/client"
         (VRef query) snapshot form_headers = inr data →
       generateClientCredentials node this scope s
       = Ok (RValue (alloc_json data snapshot).1)
            (St (alloc_json data snapshot).2 (st_trace s ++ [sent]))).
Proof.
  intros Hdefaults query snapshot sent. split; [done|].
  assert (generateClientCredentials node this scope s
          = try_catch
              (data ← await_Axios_post node
                        "https://api.vimeo.com//oauth/authorize/client"
                        (VRef query) form_headers;
               mret (RValue data))
              (λ error, throw error) (St snapshot (st_trace s))) as ->.
  { unfold generateClientCredentials. rewrite Hdefaults.
    erewrite bind_Ok; [reflexivity|].
    unfold new_object, snapshot, query.
    by destruct scope as [|str|scopes]; simpl; try destruct (String.eqb str ""). }
  unfold try_catch, mbind, M_bind.
  rewrite await_Axios_post_run. split.
  - by intros error ->.
  - by intros data ->.
Qed.

(** ** The authorization URL, read back *)

Lemma find_key_none (fields : list (string * string)) key :
  ¬ In key (map fst fields) →
  find (λ kv, String.eqb kv.1 key) fields = None.
Proof.
  induction fields as [|[k v] fields IH]; [done|].
  intros Hkey. cbn [find fst].
  destruct (String.eqb_spec k key) as [->|_].
  - destruct Hkey. by left.
  - apply IH. intros Hin. apply Hkey. by right.
Qed.

(** X16: the authorization URL is [https://api.vimeo.com/oauth/authorize]
    followed by a query from which [response_type=code], the client id and
    the redirect URI are read back exactly, whatever characters they
    contain, and which has no parameter besides these, [scope] and
    [state]. *)
Theorem buildAuthorizationEndpoint_round_trip this redirectUri scope state :
  let url := buildAuthorizationEndpoint this redirectUri scope state in
  before_char "?" url = "https://api.vimeo.com/oauth/authorize"
  ∧ query_param url "response_type" = Some "code"
  ∧ query_param url "client_id" = Some (default "" (_clientId this))
  ∧ query_param url "redirect_uri" = Some (default "" redirectUri)
  ∧ ∀ key, ¬ In key ["response_type"; "client_id"; "redirect_uri";
                     "scope"; "state"] →
           query_param url key = None.
Proof.
  cbv zeta. split; [reflexivity|].
  unfold query_param. rewrite buildAuthorizationEndpoint_query.
  split; [done|]. split; [done|]. split; [done|].
  intros key Hkey. rewrite find_key_none; [done|].
  intros Hin. apply Hkey.
  destruct (present state); simpl in Hin |- *; tauto.
Qed.

(** ** No retries: at most one HTTP call per invocation *)

Lemma bounded_quiet {A} (m : M A) n :
  emits (λ e, http_count e = 0%nat) m → bounded http_count n m.
Proof.
  intros Hm s. destruct (Hm s) as (new & Heq & Hnew).
  exists new. split; [done|].
  assert (sum_list_with http_count new = 0%nat) as ->; [|lia].
  clear Heq. induction Hnew as [|e new He _ IH]; [done|].
  change (sum_list_with http_count (e :: new))
    with (http_count e + sum_list_with http_count new)%nat.
  by rewrite He, IH.
Qed.

Lemma bounded_after_quiet {A B} (m : M A) (f : A → M B) n :
  emits (λ e, http_count e = 0%nat) m → (∀ a, bounded http_count n (f a)) →
  bounded http_count n (m ≫= f).
Proof.
  intros Hm Hf s. destruct (bounded_quiet m 0 Hm s) as (new & Heq & Hnew).
  unfold mbind, M_bind. destruct (m s) as [a s1|e s1]; simpl in *.
  - destruct (Hf a s1) as (new' & Heq' & Hnew').
    exists (new ++ new'). rewrite Heq', Heq, app_assoc. split; [done|].
    rewrite sum_list_with_app. lia.
  - exists new. split; [done|]. lia.
Qed.

Lemma bounded_then_quiet {A B} (m : M A) (f : A → M B) n :
  bounded http_count n m → (∀ a, emits (λ e, http_count e = 0%nat) (f a)) →
  bounded http_count n (m ≫= f).
Proof.
  intros Hm Hf s. destruct (Hm s) as (new & Heq & Hnew).
  unfold mbind, M_bind. destruct (m s) as [a s1|e s1]; simpl in *.
  - destruct (bounded_quiet (f a) 0 (Hf a) s1) as (new' & Heq' & Hnew').
    exists (new ++ new'). rewrite Heq', Heq, app_assoc. split; [done|].
    rewrite sum_list_with_app. lia.
  - by exists new.
Qed.

Lemma bounded_try_catch {A} (body : M A) handler n :
  bounded http_count n body →
  (∀ e, emits (λ e, http_count e = 0%nat) (handler e)) →
  bounded http_count n (try_catch body handler).
Proof.
  intros Hm Hf s. destruct (Hm s) as (new & Heq & Hnew).
  unfold try_catch. destruct (body s) as [a s1|e s1]; simpl in *.
  - by exists new.
  - destruct (bounded_quiet (handler e) 0 (Hf e) s1) as (new' & Heq' & Hnew').
    exists (new ++ new'). rewrite Heq', Heq, app_assoc. split; [done|].
    rewrite sum_list_with_app. lia.
Qed.

Lemma bounded_await_Axios_post node url data headers :
  bounded http_count 1 (await_Axios_post node url data headers).
Proof.
  intros s. exists [EvAxiosPost url data (st_heap s) headers].
  split; [|simpl; lia]. unfold await_Axios_post.
  destruct (Axios_post _ _ _ _ _) as [e|j]; [done|].
  unfold materialise. by destruct (alloc_json _ _).
Qed.

Lemma bounded_await_Axios node config :
  bounded http_count 1 (await_Axios node config).
Proof.
  intros s. exists [EvAxios config (st_heap s)].
  split; [|simpl; lia]. unfold await_Axios.
  destruct (Axios _ _ _) as [e|j]; [done|].
  unfold materialise. by destruct (alloc_json _ _).
Qed.

Lemma emits_apply_default_headers P requestOptions defaults :
  emits P (apply_default_headers requestOptions defaults).
Proof.
  induction defaults as [|[key value] defaults IH]; simpl; [apply emits_ret|].
  apply emits_bind; [apply emits_get_prop|]. intros headers.
  apply emits_bind; [apply emits_get_prop|]. intros current.
  apply emits_bind; [|intros _; apply IH].
  destruct (negb _); [|apply emits_ret].
  apply emits_bind; [apply emits_get_prop|]. intros ?. apply emits_set_prop.
Qed.

Lemma emits_write_header P requestOptions key value :
  emits P (headers ← get_prop requestOptions "headers";
           set_prop headers key value).
Proof.
  apply emits_bind; [apply emits_get_prop|]. intros ?. apply emits_set_prop.
Qed.

Lemma emits_buildRequestOptions P this options :
  emits P (_buildRequestOptions this options).
Proof.
  unfold _buildRequestOptions.
  apply emits_bind; [apply emits_get_heap|]. intros h.
  apply emits_bind; [apply emits_new_object|]. intros requestOptions.
  apply emits_bind; [apply emits_get_prop|]. intros method.
  apply emits_bind; [apply emits_set_prop|]. intros _.
  apply emits_bind; [apply emits_get_prop|]. intros headers.
  apply emits_bind.
  { destruct (truthy headers); [apply emits_ret|apply emits_new_object]. }
  intros headers'.
  apply emits_bind; [apply emits_set_prop|]. intros _.
  apply emits_bind; [apply emits_get_prop|]. intros data.
  apply emits_bind; [apply emits_set_prop|]. intros _.
  apply emits_bind; [apply emits_apply_default_headers|]. intros _.
  apply emits_bind.
  { destruct (present (_accessToken this)); [apply emits_write_header|].
    destruct (present (_clientId this) && present (_clientSecret this));
      [apply emits_write_header|apply emits_ret]. }
  intros _.
  apply emits_bind; [apply emits_get_prop|]. intros method'.
  apply emits_bind; [|intros _; apply emits_ret].
  destruct (has_body method'); [|apply emits_ret].
  apply emits_bind; [apply emits_get_prop|]. intros ?.
  apply emits_bind; [apply emits_get_prop|]. intros content_type.
  destruct (negb _); [apply emits_write_header|apply emits_ret].
Qed.

Lemma bounded_post_data node url body headers :
  bounded http_count 1
    (try_catch (data ← await_Axios_post node url body headers; mret (RValue data))
               (λ error, throw error)).
Proof.
  apply bounded_try_catch; [|intros e; apply emits_throw].
  apply bounded_then_quiet; [apply bounded_await_Axios_post|].
  intros data. apply emits_ret.
Qed.

(** X17: whatever the arguments, the store and the answers of the
    network, one invocation of [upload], [replace], [request], [accessToken]
    or [generateClientCredentials] makes at most one HTTP call: nothing is
    retried. *)
Theorem at_most_one_http_call node this file videoUri params
    onComplete onProgress onError options code redirectUri scope :
  bounded http_count 1
    (upload node this file params onComplete onProgress onError)
  ∧ bounded http_count 1
      (replace node this file videoUri params onComplete onProgress onError)
  ∧ bounded http_count 1 (request node this options)
  ∧ bounded http_count 1 (accessToken node this code redirectUri)
  ∧ bounded http_count 1 (generateClientCredentials node this scope).
Proof.
  split; [|split; [|split; [|split]]].
  - unfold upload.
    apply bounded_after_quiet; [apply emits_shift_arguments|].
    intros [[[params' cc] pc] ec].
    apply bounded_after_quiet; [by apply emits_sized|].
    intros [r|size]; [apply bounded_quiet, emits_ret|].
    apply bounded_after_quiet; [apply emits_override_upload|]. intros _.
    apply bounded_try_catch; [|intros e; by apply emits_initiate_failed].
    apply bounded_then_quiet; [apply bounded_await_Axios_post|]. intros data.
    apply emits_bind; [by apply emits_performTusUpload|].
    intros u. apply emits_ret.
  - unfold replace.
    apply bounded_after_quiet; [apply emits_shift_arguments|].
    intros [[[params' cc] pc] ec].
    apply bounded_after_quiet.
    { assert (emits (λ e, http_count e = 0%nat)
                (size ← get_prop file "size";
                 name ← get_prop file "name";
                 set_prop params' "file_name" name;;
                 mret (Continue size))) as Hobj.
      { apply emits_bind; [apply emits_get_prop|]. intros ?.
        apply emits_bind; [apply emits_get_prop|]. intros ?.
        apply emits_bind; [apply emits_set_prop|]. intros _. apply emits_ret. }
      destruct file as [| | | |path|]; try apply Hobj.
      destruct (fs_statSync_size node path).
      - apply emits_bind; [apply emits_set_prop|]. intros _. apply emits_ret.
      - apply emits_bind; [by apply emits_call|]. intros _. apply emits_ret. }
    intros [r|size]; [apply bounded_quiet, emits_ret|].
    apply bounded_after_quiet; [apply emits_override_upload|]. intros _.
    apply bounded_try_catch; [|intros e; by apply emits_initiate_failed].
    apply bounded_then_quiet; [apply bounded_await_Axios_post|]. intros data.
    apply emits_bind; [apply emits_set_prop|]. intros _.
    apply emits_bind; [by apply emits_performTusUpload|].
    intros u. apply emits_ret.
  - unfold request.
    apply bounded_after_quiet; [apply emits_get_heap|]. intros h.
    apply bounded_after_quiet.
    { destruct (typeof h options); try apply emits_ret. apply emits_set_prop. }
    intros _.
    apply bounded_after_quiet; [apply emits_get_prop|]. intros url.
    apply bounded_after_quiet; [apply emits_get_heap|]. intros h'.
    destruct (typeof h' url); try apply bounded_quiet, emits_ret.
    apply bounded_after_quiet; [apply emits_buildRequestOptions|].
    intros requestOptions.
    apply bounded_try_catch; [|intros e; apply emits_throw].
    apply bounded_then_quiet; [apply bounded_await_Axios|].
    intros data. apply emits_ret.
  - unfold accessToken.
    apply bounded_after_quiet; [apply emits_new_object|]. intros body.
    apply bounded_post_data.
  - unfold generateClientCredentials.
    apply bounded_after_quiet; [apply emits_new_object|]. intros query.
    apply bounded_post_data.
Qed.

(** ** The further properties at a concrete store *)


Lemma response_without_upload_witness :
  ∃ s' url snapshot headers,
    upload linkless_platform sample_client (VStr "/home/me/clip.mp4")
      (VRef 5%positive) (VRef 1%positive) (VRef 2%positive) (VRef 3%positive)
      sample_state = Ok RNull s'
    ∧ st_trace s'
      = [] ++
        EvAxiosPost url (VRef 5%positive) snapshot headers
        :: [EvCreateReadStream "/home/me/clip.mp4"] ++
        [EvCall 3 [VStr "Unable to initiate an upload. [TypeError: Cannot read properties of undefined (reading 'upload_link')]"]].
Proof.
  apply (response_without_upload linkless_platform sample_client
           (VStr "/home/me/clip.mp4") "/videos/76979871" 5%positive
           sample_params (o_props sample_descriptor) (VNum 1048576)
           (VRef 1%positive) (VRef 2%positive) (VRef 3%positive) sample_state
           [("uri", JStr "/videos/76979871")] 3%nat
           (upload linkless_platform sample_client (VStr "/home/me/clip.mp4")
              (VRef 5%positive) (VRef 1%positive) (VRef 2%positive)
              (VRef 3%positive))).
  - reflexivity.
  - reflexivity.
  - apply (descriptor_given _ _ 6%positive sample_descriptor);
      [reflexivity | reflexivity | discriminate].
  - reflexivity.
  - left. reflexivity.
  - intros url data snapshot headers _. reflexivity.
  - reflexivity.
  - reflexivity.
Defined.

Lemma replace_missing_file_witness :
  replace sample_platform sample_client (VStr "/home/me/gone.mp4")
    "/videos/76979871" (VRef 5%positive)
    (VRef 1%positive) (VRef 2%positive) (VRef 3%positive) sample_state
  = Ok RNull (St sample_heap
                 ([] ++ [EvCall 3 [VStr "Unable to locate file to upload."]])).
Proof.
  apply (replace_missing_file sample_platform sample_client "/home/me/gone.mp4"
           "/videos/76979871" (VRef 5%positive) (VRef 1%positive)
           (VRef 2%positive) (VRef 3%positive) sample_state 3%nat).
  - reflexivity.
  - vm_compute. discriminate.
  - reflexivity.
Defined.

Lemma missing_file_short_form_witness :
  let s' := St (<[fresh (dom sample_heap) := Obj None ∅]> sample_heap)
               ([] ++ [EvCall 3 [VStr "Unable to locate file to upload."]]) in
  upload sample_platform sample_client (VStr "/home/me/gone.mp4")
    (VRef 1%positive) (VRef 2%positive) (VRef 3%positive) VUndef sample_state
  = Ok RNull s'
  ∧ replace sample_platform sample_client (VStr "/home/me/gone.mp4")
      "/videos/76979871"
      (VRef 1%positive) (VRef 2%positive) (VRef 3%positive) VUndef sample_state
    = Ok RNull s'.
Proof.
  apply (missing_file_short_form sample_platform sample_client
           "/home/me/gone.mp4" "/videos/76979871"
           (VRef 1%positive) (VRef 2%positive) (VRef 3%positive)
           sample_state 3%nat).
  - reflexivity.
  - reflexivity.
  - reflexivity.
Defined.

Lemma params_missing_witness :
  upload sample_platform sample_client (VStr "/home/me/clip.mp4") VUndef
    (VRef 1%positive) (VRef 2%positive) (VRef 3%positive) sample_state
  = Throw (TypeError ("Cannot read properties of " +:+ show_nullish VUndef +:+
                      " (reading 'upload')")) sample_state
  ∧ replace sample_platform sample_client (VStr "/home/me/clip.mp4")
      "/videos/76979871" VUndef
      (VRef 1%positive) (VRef 2%positive) (VRef 3%positive) sample_state
    = Throw (TypeError ("Cannot set properties of " +:+ show_nullish VUndef +:+
                        " (setting 'file_name')")) sample_state.
Proof.
  apply (params_missing sample_platform sample_client (VStr "/home/me/clip.mp4")
           "/videos/76979871" VUndef (VRef 1%positive) (VRef 2%positive)
           (VRef 3%positive) sample_state (VNum 1048576)).
  - left. reflexivity.
  - reflexivity.
Defined.

Lemma orchestration_frame_witness :
  let after_upload := st_heap (final_state
        (upload sample_platform sample_client (VStr "/home/me/clip.mp4")
           (VRef 5%positive) (VRef 1%positive) (VRef 2%positive)
           (VRef 3%positive) sample_state)) in
  let after_replace := st_heap (final_state
        (replace sample_platform sample_client (VStr "/home/me/clip.mp4")
           "/videos/76979871" (VRef 5%positive)
           (VRef 1%positive) (VRef 2%positive) (VRef 3%positive)
           sample_state)) in
  (∀ l, is_Some (sample_heap !! l) → l ≠ 5%positive →
        (∀ u, prop sample_heap (VRef 5%positive) "upload" = VRef u → l ≠ u) →
        after_upload !! l = sample_heap !! l
        ∧ after_replace !! l = sample_heap !! l)
  ∧ (∀ k, k ≠ "upload" →
          prop after_upload (VRef 5%positive) k
          = prop sample_heap (VRef 5%positive) k)
  ∧ (∀ k, k ≠ "upload" → k ≠ "file_name" →
          prop after_replace (VRef 5%positive) k
          = prop sample_heap (VRef 5%positive) k).
Proof.
  apply (orchestration_frame sample_platform sample_client
           (VStr "/home/me/clip.mp4") "/videos/76979871" 5%positive
           sample_params (o_props sample_descriptor) (VNum 1048576)
           (VRef 1%positive) (VRef 2%positive) (VRef 3%positive) sample_state).
  - reflexivity.
  - reflexivity.
  - apply (descriptor_given _ _ 6%positive sample_descriptor);
      [reflexivity | reflexivity | discriminate].
  - reflexivity.
Defined.

Lemma upload_handle_callbacks_witness :
  ∃ u s',
    upload sample_platform sample_client (VStr "/home/me/clip.mp4")
      (VRef 5%positive) (VRef 1%positive) (VRef 2%positive) (VRef 3%positive)
      sample_state
    = Ok (RUpload u) s'
    ∧ onError (tus_options_of u) = VRef 3%positive
    ∧ onProgress (tus_options_of u) = VRef 2%positive
    ∧ tus_file u = SrcStream "/home/me/clip.mp4"
    ∧ tus_onSuccess u s'
      = Ok tt (St (st_heap s')
                  (st_trace s' ++ [EvCall 1 [VStr "/videos/76979871"]])).
Proof.
  apply (upload_handle_callbacks sample_platform sample_client
           (VStr "/home/me/clip.mp4") 5%positive
           sample_params (o_props sample_descriptor) (VNum 1048576)
           (VRef 1%positive) (VRef 2%positive) (VRef 3%positive) sample_state
           sample_response sample_attempt sample_link "/videos/76979871" 1%nat).
  - reflexivity.
  - reflexivity.
  - apply (descriptor_given _ _ 6%positive sample_descriptor);
      [reflexivity | reflexivity | discriminate].
  - reflexivity.
  - intros url data snapshot headers _. reflexivity.
  - reflexivity.
  - reflexivity.
  - reflexivity.
  - reflexivity.
Defined.

Lemma post_headers_usable : headers_usable post_heap 1%positive.
Proof.
  right. exists 2%positive.
  split; [reflexivity|]. split; [by eexists|discriminate].
Defined.

Lemma builder_default_headers_witness :
  ∃ requestOptions headers s',
    _buildRequestOptions sample_client (VRef 1%positive) post_state
    = Ok (VRef requestOptions) s'
    ∧ prop (st_heap s') (VRef requestOptions) "headers" = VRef headers
    ∧ (∀ key value, In (key, value) default_headers →
         prop (st_heap s') (VRef headers) key
         = if truthy (supplied_header post_heap 1%positive key)
           then supplied_header post_heap 1%positive key else VStr value)
    ∧ (∀ key, ¬ In key ["Accept"; "User-Agent"; "Authorization"; "Content-Type"] →
         prop (st_heap s') (VRef headers) key
         = supplied_header post_heap 1%positive key).
Proof.
  apply (builder_default_headers sample_client 1%positive post_options
           post_state).
  - reflexivity.
  - reflexivity.
  - exact post_headers_usable.
Defined.

Lemma builder_copies_options_witness :
  ∃ requestOptions s',
    _buildRequestOptions sample_client (VRef 1%positive) post_state
    = Ok (VRef requestOptions) s'
    ∧ post_heap !! requestOptions = None
    ∧ prop (st_heap s') (VRef requestOptions) "method" = VStr "POST"
    ∧ prop (st_heap s') (VRef requestOptions) "data" = VStr "{}"
    ∧ (∀ k, k ≠ "method" → k ≠ "headers" → k ≠ "data" →
         prop (st_heap s') (VRef requestOptions) k
         = prop post_heap (VRef 1%positive) k)
    ∧ st_trace s' = [].
Proof.
  apply (builder_copies_options sample_client 1%positive post_options
           post_state).
  - reflexivity.
  - reflexivity.
  - exact post_headers_usable.
Defined.

Lemma builder_content_type_witness :
  ∃ requestOptions headers s',
    _buildRequestOptions sample_client (VRef 1%positive) post_state
    = Ok (VRef requestOptions) s'
    ∧ prop (st_heap s') (VRef requestOptions) "headers" = VRef headers
    ∧ prop (st_heap s') (VRef headers) "Content-Type" = VStr "application/json".
Proof.
  apply (builder_content_type sample_client 1%positive post_options post_state).
  - reflexivity.
  - reflexivity.
  - exact post_headers_usable.
Defined.

Lemma builder_shares_headers_witness :
  ∃ requestOptions s',
    _buildRequestOptions sample_client (VRef 1%positive) post_state
    = Ok (VRef requestOptions) s'
    ∧ (∀ headers, prop post_heap (VRef 1%positive) "headers" = VRef headers →
         prop (st_heap s') (VRef requestOptions) "headers" = VRef headers)
    ∧ (∀ l, is_Some (post_heap !! l) →
            (∀ headers, prop post_heap (VRef 1%positive) "headers" = VRef headers →
                        l ≠ headers) →
            st_heap s' !! l = post_heap !! l).
Proof.
  apply (builder_shares_headers sample_client 1%positive post_options
           post_state).
  - reflexivity.
  - reflexivity.
  - exact post_headers_usable.
Defined.

Lemma token_in_force_witness :
  ∃ requestOptions headers s',
    _buildRequestOptions
      (setAccessToken (constructor (Some "client-id") (Some "client-secret")
                         (Some "old-token"))
                      (Some "new-token"))
      (VRef 1%positive) post_state
    = Ok (VRef requestOptions) s'
    ∧ prop (st_heap s') (VRef requestOptions) "headers" = VRef headers
    ∧ prop (st_heap s') (VRef headers) "Authorization"
      = VStr "Bearer new-token".
Proof.
  apply (token_in_force
           (constructor (Some "client-id") (Some "client-secret")
              (Some "old-token"))
           (Some "new-token") 1%positive post_options post_state).
  - reflexivity.
  - reflexivity.
  - exact post_headers_usable.
Defined.

Lemma request_sends_built_options_witness :
  ∃ config snapshot,
    prop snapshot (VRef config) "url" = VStr "/me/albums"
    ∧ prop snapshot (VRef config) "method" = VStr "POST"
    ∧ (∀ error, Axios offline_platform (VRef config) snapshot = inl error →
         request offline_platform sample_client (VRef 1%positive) post_state
         = Throw error (St snapshot ([] ++ [EvAxios (VRef config) snapshot])))
    ∧ (∀ data, Axios offline_platform (VRef config) snapshot = inr data →
         request offline_platform sample_client (VRef 1%positive) post_state
         = Ok (RValue (alloc_json data snapshot).1)
              (St (alloc_json data snapshot).2
                  ([] ++ [EvAxios (VRef config) snapshot]))).
Proof.
  apply (request_sends_built_options offline_platform sample_client 1%positive
           post_options "/me/albums" post_state).
  - reflexivity.
  - reflexivity.
  - exact post_headers_usable.
  - reflexivity.
Defined.

Lemma accessToken_exchange_witness :
  header form_headers "Authorization" = None
  ∧ accessToken offline_platform sample_client (Some "code-1")
      (Some "https://example.com/callback") sample_state
    = Throw offline_error
        (St (<[fresh (dom sample_heap) :=
                 Obj None (<["redirect_uri" := VStr "https://example.com/callback"]>
                           (<["code" := VStr "code-1"]>
                            (<["grant_type" := VStr "authorization_code"]> ∅)))]>
               sample_heap)
            ([] ++ [EvAxiosPost "https://api.vimeo.com//oauth/access_token"
                      (VRef (fresh (dom sample_heap)))
                      (<[fresh (dom sample_heap) :=
                           Obj None (<["redirect_uri" := VStr "https://example.com/callback"]>
                                     (<["code" := VStr "code-1"]>
                                      (<["grant_type" := VStr "authorization_code"]> ∅)))]>
                         sample_heap)
                      form_headers])).
Proof.
  destruct (accessToken_exchange offline_platform sample_client (Some "code-1")
              (Some "https://example.com/callback") sample_state eq_refl)
    as (Hauth & Hrejected & _).
  split; [exact Hauth|]. apply Hrejected. reflexivity.
Defined.

Lemma generateClientCredentials_request_witness :
  header form_headers "Authorization" = None
  ∧ generateClientCredentials offline_platform sample_client
      (ScopeArray ["public"; "private"]) sample_state
    = Throw offline_error
        (St (<[fresh (dom sample_heap) :=
                 Obj None (<["scope" := VStr "public private"]>
                           (<["grant_type" := VStr "client_credentials"]> ∅))]>
               sample_heap)
            ([] ++ [EvAxiosPost "https://api.vimeo.com//oauth/authorize/client"
                      (VRef (fresh (dom sample_heap)))
                      (<[fresh (dom sample_heap) :=
                           Obj None (<["scope" := VStr "public private"]>
                                     (<["grant_type" := VStr "client_credentials"]> ∅))]>
                         sample_heap)
                      form_headers])).
Proof.
  destruct (generateClientCredentials_request offline_platform sample_client
              (ScopeArray ["public"; "private"]) sample_state eq_refl)
    as (Hauth & Hrejected & _).
  split; [exact Hauth|]. apply Hrejected. reflexivity.
Defined.
